(** * URLPattern: the WebIDL shims (webidl.js) and the URLPattern class (mod.ts)

    A shallow embedding of the JavaScript wrapper of the URLPattern polyfill.
    The pattern compiler and the input resolver live in a WebAssembly module
    ([urlpattern_parse], [urlpattern_process_match_input]) and the regular
    expression engine belongs to the JavaScript host; both are taken as
    parameters of the development.  Everything the wrapper itself does --
    brand checks, argument checks, WebIDL conversions, eager regex
    compilation, the [test] and [exec] loops -- is modelled from the source. *)

From Stdlib Require Import ZArith Floats.
From stdpp Require Import gmap strings list pretty sorting.
From Equations Require Import Equations.

Set Warnings "-register-all".
Open Scope Z_scope.

(** ** Strings

    A JavaScript string is a sequence of UTF-16 code units.  Property names,
    error messages and the other ASCII literals of the program are Rocq
    strings; string _values_ that flow through the converters are lists of
    code units. *)

Abbreviation jsstring := (list Z).

Definition code_unit (c : Z) : Prop := 0 <= c < 65536.

Definition js (s : string) : jsstring :=
  (fun a => Z.of_N (Ascii.N_of_ascii a)) <$> String.list_ascii_of_string s.

(** ** Completions: a call either returns or throws *)

Inductive ErrorCtor := TypeError | SyntaxError | RangeError | ReferenceError | Error.

Record exn := Exn { ctor : ErrorCtor; message : string }.

Inductive completion (A : Type) :=
| Return (a : A)
| Throw (e : exn).
Arguments Return {A} a.
Arguments Throw {A} e.

#[global] Instance completion_ret : MRet completion := fun A a => Return a.
#[global] Instance completion_bind : MBind completion := fun A B f c =>
  match c with
  | Return a => f a
  | Throw e => Throw e
  end.
#[global] Instance completion_fmap : FMap completion := fun A B f c =>
  match c with
  | Return a => Return (f a)
  | Throw e => Throw e
  end.

Definition returns {A} (c : completion A) : bool :=
  match c with Return _ => true | Throw _ => false end.

Definition throws {A} (c : completion A) : bool := negb (returns c).

(** ** JavaScript values

    Objects are plain data objects: a finite map from property names to
    values.  Accessor properties, callable and exotic objects are outside
    the model. *)

Record symbol := Symbol { symbol_id : nat; description : jsstring }.

Inductive value :=
| VUndefined
| VNull
| VBoolean (b : bool)
| VNumber (n : float)
| VBigInt (z : Z)
| VString (s : jsstring)
| VSymbol (s : symbol)
| VObject (props : gmap string value).

(** [export const brand = Symbol("[[webidl.brand]]")] *)
Definition brand : symbol := Symbol 0 (js "[[webidl.brand]]").

(** [const _components = Symbol("components")] *)
Definition _components : symbol := Symbol 1 (js "components").

Definition typeof (V : value) : string :=
  match V with
  | VUndefined => "undefined"
  | VNull => "object"
  | VBoolean _ => "boolean"
  | VNumber _ => "number"
  | VBigInt _ => "bigint"
  | VString _ => "string"
  | VSymbol _ => "symbol"
  | VObject _ => "object"
  end.

(** [V === undefined] and [V === null] *)
Definition is_undefined (V : value) : bool :=
  match V with VUndefined => true | _ => false end.

Definition is_null (V : value) : bool :=
  match V with VNull => true | _ => false end.

(** [V[key]] for a string key: own data property or [undefined]. *)
Definition get_property (V : value) (key : string) : value :=
  match V with
  | VObject props => default VUndefined (props !! key)
  | _ => VUndefined
  end.

(** [String.fromCodePoint(cp)]: one code unit in the basic plane, a surrogate
    pair above it, a RangeError outside the code point range. *)
Definition fromCodePoint (cp : Z) : completion jsstring :=
  if (0 <=? cp) && (cp <=? 0xFFFF) then Return [cp]
  else if (0x10000 <=? cp) && (cp <=? 0x10FFFF) then
    Return [0xD800 + Z.shiftr (cp - 0x10000) 10; 0xDC00 + Z.land (cp - 0x10000) 0x3FF]
  else Throw (Exn RangeError "Invalid code point").

(** [S.charCodeAt(i)].  Outside the string JavaScript answers [NaN]; the
    model answers [-1] there, and the loop of the USVString converter never
    reads outside: it reads at [i < n], and at [i + 1] only when
    [i <> n - 1]. *)
Definition charCodeAt (Str : jsstring) (i : Z) : Z :=
  if i <? 0 then -1 else default (-1) (Str !! Z.to_nat i).

(** ** webidl.js *)

(** The [opts] bag the converters pass around.  A missing field reads as
    [undefined]. *)
Record Opts := {
  prefix : option string;
  context : option string;
  treatNullAsEmptyString : bool;
}.

Definition no_opts : Opts :=
  {| prefix := None; context := None; treatNullAsEmptyString := false |}.

(** Truthiness of an optional string field: [undefined] and the empty string
    are falsy. *)
Definition truthy (o : option string) : bool :=
  match o with
  | Some s => negb (String.eqb s "")
  | None => false
  end.

Definition decimal (n : nat) : string := pretty n.

(** [requiredArguments(length, required, opts)] *)
Definition requiredArguments (length required : nat) (opts : Opts) : completion unit :=
  if (length <? required)%nat then
    let errMsg :=
      (if truthy (prefix opts) then default "" (prefix opts) +:+ ": " else "")
      +:+ decimal required +:+ " argument"
      +:+ (if (required =? 1)%nat then "" else "s")
      +:+ " required, but only " +:+ decimal length +:+ " present." in
    Throw (Exn TypeError errMsg)
  else Return ().

(** A dictionary member as [createDictionaryConverter] receives it.  The
    [defaultValues] block of the source (webidl.js, lines 42 to 64) acts on
    members that declare a [defaultValue] only; no dictionary of this
    repository declares one, so the members of the model carry none and
    [defaultValues] is the empty object that every [idlDict] starts from. *)
Record member := {
  key : string;
  converter : value -> Opts -> completion value;
  required : bool;
}.

(** The comparator handed to [allMembers.sort]. *)
Definition compare_members (a b : member) : Z :=
  if String.eqb (key a) (key b) then 0
  else if String.ltb (key a) (key b) then -1 else 1.

(** [Array.prototype.sort]: a stable sort by the comparator. *)
Fixpoint sort_insert {A} (cmp : A -> A -> Z) (x : A) (l : list A) : list A :=
  match l with
  | [] => [x]
  | y :: l' => if cmp x y <? 0 then x :: y :: l' else y :: sort_insert cmp x l'
  end.

Definition sort {A} (cmp : A -> A -> Z) (l : list A) : list A :=
  foldl (fun sorted x => sort_insert cmp x sorted) [] l.

(** The [for] loop of [converters["USVString"]] from index [i], with [U] as
    accumulated so far: [for (let i = 0; i < n; ++i) { ... }]. *)
Equations? USVString_loop (Str : jsstring) (n i : Z) (U : jsstring) : completion jsstring
  by wf (Z.to_nat (n - i)) lt :=
USVString_loop Str n i U with decide (i < n) := {
  | right _ => Return U
  | left _ =>
    let c := charCodeAt Str i in
    if (c <? 0xd800) || (c >? 0xdfff) then
      u ← fromCodePoint c; USVString_loop Str n (i + 1) (U ++ u)
    else if (0xdc00 <=? c) && (c <=? 0xdfff) then
      u ← fromCodePoint 0xfffd; USVString_loop Str n (i + 1) (U ++ u)
    else if i =? n - 1 then
      u ← fromCodePoint 0xfffd; USVString_loop Str n (i + 1) (U ++ u)
    else
      let d := charCodeAt Str (i + 1) in
      if (0xdc00 <=? d) && (d <=? 0xdfff) then
        let a := Z.land c 0x3ff in
        let b := Z.land d 0x3ff in
        u ← fromCodePoint (Z.shiftl 2 15 + Z.shiftl 2 9 * a + b);
        USVString_loop Str n (i + 1 + 1) (U ++ u)
      else
        u ← fromCodePoint 0xfffd; USVString_loop Str n (i + 1) (U ++ u) }.
Proof. all: lia. Qed.

(** ** mod.ts: the URLPattern class *)

(** A compiled regular expression, as the wrapper uses it: [exec] on a
    string gives the match array (entry 0 the whole match, then the captures,
    [undefined] for a capture that did not take part) or [null].  The
    patterns are compiled with the flag [u] alone, so matching neither reads
    nor writes [lastIndex]. *)
Abbreviation RegExp := (jsstring -> option (list (option jsstring))).

Definition regexp_exec (r : RegExp) (input : jsstring) : option (list (option jsstring)) :=
  r input.

(** [RegExp.prototype.test]: whether [exec] finds a match. *)
Definition regexp_test (r : RegExp) (input : jsstring) : bool :=
  bool_decide (is_Some (regexp_exec r input)).

(** One compiled component, as the pattern compiler returns it
    ([patternString], [regexpString], [groupNameList]) and as the
    constructor completes it ([regexp]). *)
Record Component := {
  patternString : jsstring;
  regexpString : jsstring;
  groupNameList : list jsstring;
  regexp : option RegExp;
}.

(** An object with string keys whose key order matters ([Object.keys]):
    its entries in order, keys pairwise distinct. *)
Abbreviation object A := (list (string * A)).

Fixpoint object_get {A} (o : object A) (key : string) : option A :=
  match o with
  | [] => None
  | (k, a) :: o' => if String.eqb k key then Some a else object_get o' key
  end.

(** Reading a property of [undefined] is a TypeError of the engine. *)
Definition cannot_read (property : string) : exn :=
  Exn TypeError ("Cannot read properties of undefined (reading '" +:+ property +:+ "')").

Definition defined {A} (property : string) (o : option A) : completion A :=
  match o with
  | Some a => Return a
  | None => Throw (cannot_read property)
  end.

(** What the class observes of a receiver [this]: whether it is
    [instanceof URLPattern], the value of [this[brand]] and the value of
    [this[_components]] ([None] for [undefined]). *)
Record Receiver := {
  instanceof_URLPattern : bool;
  brand_property : value;
  components_property : option (object Component);
}.

(** [v === brand]: symbols are equal when they are the same symbol. *)
Definition is_brand (v : value) : bool :=
  match v with
  | VSymbol s => Nat.eqb (symbol_id s) (symbol_id brand)
  | _ => false
  end.

(** [assertBranded(self, prototype)], with [URLPattern] for [prototype] as
    at every call. *)
Definition assertBranded (self : Receiver) : completion unit :=
  if negb (instanceof_URLPattern self) || negb (is_brand (brand_property self))
  then Throw (Exn TypeError "Illegal invocation")
  else Return ().

(** [URLPatternComponentResult] and [URLPatternResult] *)
Record URLPatternComponentResult := {
  input : jsstring;
  groups : gmap jsstring jsstring;
}.

Inductive result_property :=
| inputs_property (inputs : list value)
| component_property (r : URLPatternComponentResult).

(** *** Effects

    A method runs on a receiver and may call into the host.  The state is
    the receiver (what [this] refers to) and the log of host calls made so
    far; a computation ends by returning or by throwing. *)
Inductive event :=
| call_urlpatternParse (input baseURL : value)
| call_urlpatternProcessMatchInput (input baseURL : value)
| call_RegExp (pattern : jsstring) (flags : string)
| call_regexp_test (key : string) (input : jsstring)
| call_regexp_exec (key : string) (input : jsstring).

Record world := World { this : Receiver; trace : list event }.

Definition M (A : Type) : Type := world -> completion A * world.

#[global] Instance M_ret : MRet M := fun A a w => (Return a, w).
#[global] Instance M_bind : MBind M := fun A B f m w =>
  match m w with
  | (Return a, w') => f a w'
  | (Throw e, w') => (Throw e, w')
  end.

Definition lift {A} (c : completion A) : M A := fun w => (c, w).

Definition get_this : M Receiver := fun w => (Return (this w), w).

Definition set_this (r : Receiver) : M unit :=
  fun w => (Return (), World r (trace w)).

Definition host_call {A} (e : event) (c : completion A) : M A :=
  fun w => (c, World (this w) (trace w ++ [e])).

(** [arguments[i]], [undefined] past the end (so a parameter with the default
    [undefined] reads the same whether it was omitted or not). *)
Definition argument (args : list value) (i : nat) : value :=
  default VUndefined (args !! i).

(** ** What the specification says of the WebAssembly module

    The pattern compiler and the input resolver are compiled from Rust
    sources that are not part of the JavaScript wrapper; where a property
    depends on what they return, it is stated against the specification's
    description of them. *)

(** Modelled from the spec: the names of "the eight compiled components
    (protocol, username, password, hostname, port, pathname, search, hash)"
    that the absent pattern compiler returns. *)
Definition component_keys : list string :=
  ["protocol"; "username"; "password"; "hostname"; "port"; "pathname"; "search"; "hash"].

(** Modelled from the spec: an object of the absent module that has one
    entry for each of the eight components -- the component set, "one
    instance per of the 8 URL components", and the resolved values, a
    "mapping from component name to the concrete string value". *)
Definition eight_components {A} (o : object A) : Prop := o.*1 ≡ₚ component_keys.

(** Modelled from the spec: the inputs the absent resolver records,
    "[originalInput] or [originalInput, baseURL]" -- the pair of what it was
    passed, with [null] for a base URL that was not supplied, which is what
    [exec] tests for before it drops the second entry. *)
Definition recorded_inputs (input baseURL : value) : list value :=
  [input; if is_undefined baseURL then VNull else baseURL].

(** ** A toy host, for closed examples

    The examples below need a host to run on.  This one is small enough to
    evaluate: [type] and [makeException] as the WebIDL conversion rules
    describe them; a pattern compiler that knows literal components and the
    wildcard; a resolver for https URLs without port, query or fragment; an
    engine for the two shapes of source that compiler emits. *)
Definition toy_type (V : value) : completion string :=
  Return match V with
         | VUndefined => "Undefined"
         | VNull => "Null"
         | VBoolean _ => "Boolean"
         | VNumber _ => "Number"
         | VBigInt _ => "BigInt"
         | VString _ => "String"
         | VSymbol _ => "Symbol"
         | VObject _ => "Object"
         end.

Definition toy_makeException (ctor : ErrorCtor) (message : string) (opts : Opts) : exn :=
  Exn ctor
    ((if truthy (prefix opts) then default "" (prefix opts) +:+ ": " else "") +:+
     (if truthy (context opts) then default "" (context opts) else "Value") +:+
     " " +:+ message).

(** The examples pass no numbers. *)
Definition toy_Number_toString (n : float) : jsstring := js "NaN".

Definition toy_Object_toString (props : gmap string value) : completion jsstring :=
  Return (js "[object Object]").

Definition wildcard : Component :=
  {| patternString := js "*"; regexpString := js "^(.*)$";
     groupNameList := [js "0"]; regexp := None |}.

Definition literal (text : jsstring) : Component :=
  {| patternString := text; regexpString := js "^" ++ text ++ js "$";
     groupNameList := []; regexp := None |}.

(** A structured pattern gives a literal for each component it names and the
    wildcard for the others; a string pattern is taken as a pathname relative
    to the base URL, which has to be there. *)
Definition toy_urlpatternParse (input baseURL : value) : completion (object Component) :=
  match input with
  | VObject props =>
    Return ((fun key =>
               (key, match props !! key with
                     | Some (VString text) => literal text
                     | _ => wildcard
                     end)) <$> component_keys)
  | VString text =>
    if is_undefined baseURL
    then Throw (Exn TypeError "a relative pattern needs a base URL")
    else Return ((fun key =>
                    (key, if String.eqb key "pathname" then literal (js "/" ++ text)
                          else wildcard)) <$> component_keys)
  | _ => Throw (Exn TypeError "not a pattern")
  end.

Fixpoint after_prefix (prefix Str : jsstring) : option jsstring :=
  match prefix, Str with
  | [], _ => Some Str
  | p :: prefix', c :: Str' => if p =? c then after_prefix prefix' Str' else None
  | _ :: _, [] => None
  end.

Fixpoint until_slash (Str : jsstring) : jsstring * jsstring :=
  match Str with
  | [] => ([], [])
  | c :: rest =>
    if c =? 47 then ([], Str)
    else let '(host, path) := until_slash rest in (c :: host, path)
  end.

Definition toy_url (hostname pathname : jsstring) : object jsstring :=
  [("protocol", js "https"); ("username", []); ("password", []); ("hostname", hostname);
   ("port", []); ("pathname", pathname); ("search", []); ("hash", [])].

(** An absolute https URL resolves to its host and path; anything else
    resolves against a base URL of that kind, or not at all.  A structured
    input gives its own values, the empty string for what it leaves out. *)
Definition toy_urlpatternProcessMatchInput (input baseURL : value)
    : completion (option (object jsstring * list value)) :=
  match input with
  | VObject props =>
    if is_undefined baseURL then
      Return (Some ((fun key =>
                       (key, match props !! key with
                             | Some (VString text) => text
                             | _ => []
                             end)) <$> component_keys,
                    recorded_inputs input baseURL))
    else Throw (Exn TypeError "a structured input takes no base URL")
  | VString text =>
    match after_prefix (js "https://") text with
    | Some rest =>
      let '(host, path) := until_slash rest in
      Return (Some (toy_url host (if bool_decide (path = []) then js "/" else path),
                    recorded_inputs input baseURL))
    | None =>
      match baseURL with
      | VString base =>
        match after_prefix (js "https://") base with
        | Some rest =>
          Return (Some (toy_url (until_slash rest).1
                          (if bool_decide (head text = Some 47) then text else js "/" ++ text),
                        recorded_inputs input baseURL))
        | None => Return None
        end
      | _ => Return None
      end
    end
  | _ => Return None
  end.

Definition plain (c : Z) : bool :=
  ((48 <=? c) && (c <=? 57)) || ((65 <=? c) && (c <=? 90)) ||
  ((97 <=? c) && (c <=? 122)) || (c =? 47) || (c =? 45) || (c =? 0xFFFD).

Definition toy_RegExp (pattern : jsstring) (flags : string) : completion RegExp :=
  if bool_decide (pattern = js "^(.*)$") then
    Return (fun input => Some [Some input; Some input])
  else
    match pattern with
    | 94 :: rest =>
      match reverse rest with
      | 36 :: body =>
        if forallb plain body then
          Return (fun input =>
                    if bool_decide (input = reverse body) then Some [Some input] else None)
        else Throw (Exn SyntaxError "Invalid regular expression")
      | _ => Throw (Exn SyntaxError "Invalid regular expression")
      end
    | _ => Throw (Exn SyntaxError "Invalid regular expression")
    end.

(** ** Well-formed UTF-16, in the words of the specification

    A high surrogate followed by a low surrogate is a pair and stands for a
    supplementary code point; any other surrogate code unit is unpaired. *)
Definition high_surrogate (c : Z) : bool := (0xD800 <=? c) && (c <=? 0xDBFF).
Definition low_surrogate (c : Z) : bool := (0xDC00 <=? c) && (c <=? 0xDFFF).
Definition surrogate (c : Z) : bool := (0xD800 <=? c) && (c <=? 0xDFFF).

Fixpoint isWellFormed (Str : jsstring) : bool :=
  match Str with
  | [] => true
  | c :: rest =>
    if high_surrogate c then
      match rest with
      | d :: rest' => low_surrogate d && isWellFormed rest'
      | [] => false
      end
    else negb (low_surrogate c) && isWellFormed rest
  end.

(** Every unpaired surrogate replaced by U+FFFD, every pair kept. *)
Fixpoint toWellFormed (Str : jsstring) : jsstring :=
  match Str with
  | [] => []
  | c :: rest =>
    if high_surrogate c then
      match rest with
      | d :: rest' =>
        if low_surrogate d then c :: d :: toWellFormed rest'
        else 0xFFFD :: toWellFormed rest
      | [] => [0xFFFD]
      end
    else if low_surrogate c then 0xFFFD :: toWellFormed rest
    else c :: toWellFormed rest
  end.

(** The code points of a string, as its iterator yields them: a pair is one
    supplementary code point, an unpaired surrogate is itself. *)
Fixpoint code_points (Str : jsstring) : list Z :=
  match Str with
  | [] => []
  | c :: rest =>
    if high_surrogate c then
      match rest with
      | d :: rest' =>
        if low_surrogate d
        then (0x10000 + 0x400 * (c - 0xD800) + (d - 0xDC00)) :: code_points rest'
        else c :: code_points rest
      | [] => [c]
      end
    else c :: code_points rest
  end.

Definition replacement (cp : Z) : Z := if surrogate cp then 0xFFFD else cp.

Section Host.

(** *** What the source uses and does not define

    [type] and [makeException] are called in webidl.js but neither defined
    nor imported there.  They are parameters here; [type] answers with a
    completion, so the reading in which the unbound name raises at the call
    is one of its instances, and the value [makeException] builds is what
    the caller throws. *)
Variable type : value -> completion string.
Variable makeException : ErrorCtor -> string -> Opts -> exn.

(** *** The JavaScript host

    [Number::toString] of a double, and [String(V)] of an object (which runs
    [ToPrimitive] and with it arbitrary user code that may throw). *)
Variable Number_toString : float -> jsstring.
Variable Object_toString : gmap string value -> completion jsstring.

(** *** The WebAssembly module and the regular expression engine

    [urlpatternParse(input, baseURL)] compiles a pattern into its components
    or throws; [urlpatternProcessMatchInput(input, baseURL)] resolves a match
    input into the component values and the recorded inputs, answers [null]
    when the input does not resolve, or throws; [new RegExp(pattern, flags)]
    compiles a regular expression or throws a SyntaxError. *)
Variable urlpatternParse : value -> value -> completion (object Component).
Variable urlpatternProcessMatchInput :
  value -> value -> completion (option (object jsstring * list value)).
Variable new_RegExp : jsstring -> string -> completion RegExp.

(** [String(V)] *)
Definition String_ (V : value) : completion jsstring :=
  match V with
  | VUndefined => Return (js "undefined")
  | VNull => Return (js "null")
  | VBoolean true => Return (js "true")
  | VBoolean false => Return (js "false")
  | VNumber n => Return (Number_toString n)
  | VBigInt z => Return (js (pretty z))
  | VString s => Return s
  | VSymbol s => Return (js "Symbol(" ++ description s ++ js ")")
  | VObject props => Object_toString props
  end.

(** [converters["DOMString"]] *)
Definition converters_DOMString (V : value) (opts : Opts) : completion jsstring :=
  if treatNullAsEmptyString opts && is_null V then Return []
  else if String.eqb (typeof V) "symbol" then
    Throw (makeException TypeError "is a symbol, which cannot be converted to a string" opts)
  else String_ V.

(** [converters["USVString"]] *)
Definition converters_USVString (V : value) (opts : Opts) : completion value :=
  Str ← converters_DOMString V opts;
  let n := Z.of_nat (length Str) in
  U ← USVString_loop Str n 0 [];
  Return (VString U).

(** The member loop of a dictionary converter: [for (const member of
    allMembers) { ... }] over the dictionary [idlDict] built so far. *)
Fixpoint convert_members (name : string) (typeV : string) (esDict : value)
    (opts : Opts) (allMembers : list member) (idlDict : gmap string value)
    : completion (gmap string value) :=
  match allMembers with
  | [] => Return idlDict
  | member :: rest =>
    let key := key member in
    let esMemberValue :=
      if String.eqb typeV "Undefined" || String.eqb typeV "Null"
      then VUndefined else get_property esDict key in
    if negb (is_undefined esMemberValue) then
      let context' :=
        "'" +:+ key +:+ "' of '" +:+ name +:+ "'" +:+
        (if truthy (context opts) then " (" +:+ default "" (context opts) +:+ ")" else "") in
      idlMemberValue ← converter member esMemberValue
        {| prefix := prefix opts; context := Some context';
           treatNullAsEmptyString := treatNullAsEmptyString opts |};
      convert_members name typeV esDict opts rest (<[key := idlMemberValue]> idlDict)
    else if required member then
      Throw (makeException TypeError
        ("can not be converted to '" +:+ name +:+ "' because '" +:+ key +:+
         "' is required in '" +:+ name +:+ "'.") opts)
    else convert_members name typeV esDict opts rest idlDict
  end.

(** [createDictionaryConverter(name, ...dictionaries)] *)
Definition createDictionaryConverter (name : string) (dictionaries : list (list member))
    : value -> Opts -> completion value :=
  let hasRequiredKey := existsb required (concat dictionaries) in
  let allMembers := sort compare_members (concat dictionaries) in
  fun V opts =>
    typeV ← type V;
    if negb (String.eqb typeV "Undefined" || String.eqb typeV "Null" ||
             String.eqb typeV "Object") then
      Throw (makeException TypeError "can not be converted to a dictionary" opts)
    else
      let esDict := V in
      let idlDict : gmap string value := ∅ in
      if (is_undefined V || is_null V) && negb hasRequiredKey then
        Return (VObject idlDict)
      else
        idlDict ← convert_members name typeV esDict opts allMembers idlDict;
        Return (VObject idlDict).

(** [converters["URLPatternInit"]] *)
Definition converters_URLPatternInit : value -> Opts -> completion value :=
  createDictionaryConverter "URLPatternInit" [[
    {| key := "protocol"; converter := converters_USVString; required := false |};
    {| key := "username"; converter := converters_USVString; required := false |};
    {| key := "password"; converter := converters_USVString; required := false |};
    {| key := "hostname"; converter := converters_USVString; required := false |};
    {| key := "port"; converter := converters_USVString; required := false |};
    {| key := "pathname"; converter := converters_USVString; required := false |};
    {| key := "search"; converter := converters_USVString; required := false |};
    {| key := "hash"; converter := converters_USVString; required := false |};
    {| key := "baseURL"; converter := converters_USVString; required := false |}
  ]].

(** [converters["URLPatternInput"]] *)
Definition converters_URLPatternInput (V : value) (opts : Opts) : completion value :=
  if String.eqb (typeof V) "object" then converters_URLPatternInit V opts
  else converters_USVString V opts.


(** *** The URLPattern class *)

Definition with_brand (self : Receiver) (v : value) : Receiver :=
  {| instanceof_URLPattern := instanceof_URLPattern self;
     brand_property := v;
     components_property := components_property self |}.

Definition with_components (self : Receiver) (c : object Component) : Receiver :=
  {| instanceof_URLPattern := instanceof_URLPattern self;
     brand_property := brand_property self;
     components_property := Some c |}.

Definition with_regexp (c : Component) (r : RegExp) : Component :=
  {| patternString := patternString c;
     regexpString := regexpString c;
     groupNameList := groupNameList c;
     regexp := Some r |}.

(** The loop of the constructor over [Object.keys(components)]: every
    component gets its [regexp], compiled with the flag [u]; a failure of
    the engine is rethrown as a TypeError that names the component. *)
Fixpoint compile_components (prefix : string) (components : object Component)
    : M (object Component) :=
  match components with
  | [] => mret []
  | (key, component) :: rest =>
    r ← host_call (call_RegExp (regexpString component) "u")
          (match new_RegExp (regexpString component) "u" with
           | Return r => Return r
           | Throw e =>
             Throw (Exn TypeError (prefix +:+ ": " +:+ key +:+ " is invalid; " +:+ message e))
           end);
    rest' ← compile_components prefix rest;
    mret ((key, with_regexp component r) :: rest')
  end.

(** [constructor(input, baseURL = undefined)] *)
Definition URLPattern_constructor (args : list value) : M unit :=
  self ← get_this;
  set_this (with_brand self (VSymbol brand));;
  let prefix := "Failed to construct 'URLPattern'" in
  lift (requiredArguments (length args) 1
          {| prefix := Some prefix; context := None; treatNullAsEmptyString := false |});;
  input ← lift (converters_URLPatternInput (argument args 0)
          {| prefix := Some prefix; context := Some "Argument 1";
             treatNullAsEmptyString := false |});
  baseURL ←
    (if negb (is_undefined (argument args 1)) then
       lift (converters_USVString (argument args 1)
          {| prefix := Some prefix; context := Some "Argument 2";
             treatNullAsEmptyString := false |})
     else mret (argument args 1));
  components ← host_call (call_urlpatternParse input baseURL) (urlpatternParse input baseURL);
  components ← compile_components prefix components;
  self ← get_this;
  set_this (with_components self components).

(** [new URLPattern(...args)]: the constructor run on a fresh object whose
    prototype is [URLPattern.prototype]; the object is the result unless the
    constructor throws. *)
Definition new_object : Receiver :=
  {| instanceof_URLPattern := true; brand_property := VUndefined;
     components_property := None |}.

Definition new_URLPattern (args : list value) : completion Receiver * list event :=
  match URLPattern_constructor args (World new_object []) with
  | (Return _, w) => (Return (this w), trace w)
  | (Throw e, w) => (Throw e, trace w)
  end.

(** The eight getters: [get protocol() { assertBranded(this, URLPattern);
    return this[_components].protocol.patternString; }] and its siblings. *)
Definition pattern_getter (name : string) : M jsstring :=
  self ← get_this;
  lift (assertBranded self);;
  components ← lift (defined name (components_property self));
  component ← lift (defined "patternString" (object_get components name));
  mret (patternString component).

Definition URLPattern_protocol : M jsstring := pattern_getter "protocol".
Definition URLPattern_username : M jsstring := pattern_getter "username".
Definition URLPattern_password : M jsstring := pattern_getter "password".
Definition URLPattern_hostname : M jsstring := pattern_getter "hostname".
Definition URLPattern_port : M jsstring := pattern_getter "port".
Definition URLPattern_pathname : M jsstring := pattern_getter "pathname".
Definition URLPattern_search : M jsstring := pattern_getter "search".
Definition URLPattern_hash : M jsstring := pattern_getter "hash".

(** The loop of [test] over [Object.keys(values)].  [values] is an object,
    so [values[key]] is the second component of the entry of [key]. *)
Fixpoint test_loop (values : object jsstring) : M bool :=
  match values with
  | [] => mret true
  | (key, v) :: rest =>
    self ← get_this;
    components ← lift (defined key (components_property self));
    component ← lift (defined "regexp" (object_get components key));
    r ← lift (defined "test" (regexp component));
    matched ← host_call (call_regexp_test key v) (Return (regexp_test r v));
    if negb matched then mret false else test_loop rest
  end.

(** [test(input, baseURL = undefined)] *)
Definition test (args : list value) : M bool :=
  self ← get_this;
  lift (assertBranded self);;
  let prefix := "Failed to execute 'test' on 'URLPattern'" in
  lift (requiredArguments (length args) 1
          {| prefix := Some prefix; context := None; treatNullAsEmptyString := false |});;
  input ← lift (converters_URLPatternInput (argument args 0)
          {| prefix := Some prefix; context := Some "Argument 1";
             treatNullAsEmptyString := false |});
  baseURL ←
    (if negb (is_undefined (argument args 1)) then
       lift (converters_USVString (argument args 1)
          {| prefix := Some prefix; context := Some "Argument 2";
             treatNullAsEmptyString := false |})
     else mret (argument args 1));
  res ← host_call (call_urlpatternProcessMatchInput input baseURL)
          (urlpatternProcessMatchInput input baseURL);
  match res with
  | None => mret false
  | Some (values, _) => test_loop values
  end.

(** [Object.fromEntries]: a later entry overwrites an earlier one of the
    same key. *)
Definition fromEntries (entries : list (jsstring * jsstring)) : gmap jsstring jsstring :=
  foldl (fun o e => <[e.1 := e.2]> o) ∅ entries.

(** [component.groupNameList.map((name, i) => [name, match[i + 1] ?? ""])] *)
Definition groupEntries (groupNameList : list jsstring) (match_ : list (option jsstring))
    : list (jsstring * jsstring) :=
  imap (fun i name => (name, default [] (mjoin (match_ !! (i + 1)%nat)))) groupNameList.

(** The loop of [exec] over [Object.keys(values)], filling [result]. *)
Fixpoint exec_loop (values : object jsstring) (result : gmap string result_property)
    : M (option (gmap string result_property)) :=
  match values with
  | [] => mret (Some result)
  | (key, v) :: rest =>
    self ← get_this;
    components ← lift (defined key (components_property self));
    let component := object_get components key in
    let input := v in
    component ← lift (defined "regexp" component);
    r ← lift (defined "exec" (regexp component));
    match_ ← host_call (call_regexp_exec key input) (Return (regexp_exec r input));
    match match_ with
    | None => mret None
    | Some match_ =>
      let groupEntries := groupEntries (groupNameList component) match_ in
      let groups := fromEntries groupEntries in
      exec_loop rest
        (<[key := component_property {| input := input; groups := groups |}]> result)
    end
  end.

(** [exec(input, baseURL = undefined)]; [null] is [None]. *)
Definition exec (args : list value) : M (option (gmap string result_property)) :=
  self ← get_this;
  lift (assertBranded self);;
  let prefix := "Failed to execute 'exec' on 'URLPattern'" in
  lift (requiredArguments (length args) 1
          {| prefix := Some prefix; context := None; treatNullAsEmptyString := false |});;
  input ← lift (converters_URLPatternInput (argument args 0)
          {| prefix := Some prefix; context := Some "Argument 1";
             treatNullAsEmptyString := false |});
  baseURL ←
    (if negb (is_undefined (argument args 1)) then
       lift (converters_USVString (argument args 1)
          {| prefix := Some prefix; context := Some "Argument 2";
             treatNullAsEmptyString := false |})
     else mret (argument args 1));
  res ← host_call (call_urlpatternProcessMatchInput input baseURL)
          (urlpatternProcessMatchInput input baseURL);
  match res with
  | None => mret None
  | Some (values, inputs) =>
    let inputs :=
      if is_null (default VUndefined (inputs !! 1%nat)) then removelast inputs else inputs in
    let result : gmap string result_property := {[ "inputs" := inputs_property inputs ]} in
    exec_loop values result
  end.

(** [[Symbol.for("Deno.customInspect")](inspect)].  [this.protocol] and its
    siblings are read in the order of the object literal; they are the
    getters of the class, as on every object the constructor made.
    [inspect] is the function of the caller, which returns a string or
    throws. *)
Definition customInspect (inspect : object jsstring -> completion jsstring) : M jsstring :=
  protocol ← URLPattern_protocol;
  username ← URLPattern_username;
  password ← URLPattern_password;
  hostname ← URLPattern_hostname;
  port ← URLPattern_port;
  pathname ← URLPattern_pathname;
  search ← URLPattern_search;
  hash ← URLPattern_hash;
  text ← lift (inspect [("protocol", protocol); ("username", username);
                        ("password", password); ("hostname", hostname);
                        ("port", port); ("pathname", pathname);
                        ("search", search); ("hash", hash)]);
  mret (js "URLPattern " ++ text).

(** *** Helpers for stating the properties

    The argument checks and conversions that the constructor, [test] and
    [exec] all start with, as one computation. *)
Definition convert_arguments (prefix : string) (args : list value)
    : completion (value * value) :=
  requiredArguments (length args) 1
    {| prefix := Some prefix; context := None; treatNullAsEmptyString := false |};;
  input ← converters_URLPatternInput (argument args 0)
    {| prefix := Some prefix; context := Some "Argument 1";
       treatNullAsEmptyString := false |};
  baseURL ←
    (if negb (is_undefined (argument args 1)) then
       converters_USVString (argument args 1)
         {| prefix := Some prefix; context := Some "Argument 2";
            treatNullAsEmptyString := false |}
     else Return (argument args 1));
  Return (input, baseURL).

(** A method call on a receiver, from an empty log. *)
Definition run {A} (m : M A) (self : Receiver) : completion A * world :=
  m (World self []).

Definition outcome {A} (m : M A) (self : Receiver) : completion A := (run m self).1.

Definition calls {A} (m : M A) (self : Receiver) : list event := trace (run m self).2.

Definition logged (w : world) (e : event) : world := World (this w) (trace w ++ [e]).

(** The eight getters. *)
Definition getters : list (M jsstring) :=
  [URLPattern_protocol; URLPattern_username; URLPattern_password; URLPattern_hostname;
   URLPattern_port; URLPattern_pathname; URLPattern_search; URLPattern_hash].

(** A receiver that [new URLPattern(...)] returned. *)
Definition constructed (self : Receiver) : Prop :=
  exists args, (new_URLPattern args).1 = Return self.

(** A call of [test] or of [exec], and a sequence of such calls on one
    receiver. *)
Inductive invocation :=
| invoke_test (args : list value)
| invoke_exec (args : list value).

Definition invoke (w : world) (i : invocation) : world :=
  match i with
  | invoke_test args => (test args w).2
  | invoke_exec args => (exec args w).2
  end.

Definition invoke_all (invocations : list invocation) (w : world) : world :=
  foldl invoke w invocations.

(** A component before and after the constructor's loop reached it: the
    same key, and the regexp the engine returned for its source. *)
Definition compiled (before after : string * Component) : Prop :=
  after.1 = before.1 /\
  exists r, new_RegExp (regexpString before.2) "u" = Return r /\
            after.2 = with_regexp before.2 r.

Definition compilation (entry : string * Component) : event :=
  call_RegExp (regexpString entry.2) "u".

(** [needle] occurs in [hay]. *)
Definition contains (needle hay : string) : Prop :=
  exists before after, hay = before +:+ needle +:+ after.

(** The component and its regexp as the loops of [test] and [exec] reach
    them for a key; [method] is the method about to be called on the regexp. *)
Definition component_regexp (method : string) (self : Receiver) (key : string)
    : completion (Component * RegExp) :=
  components ← defined key (components_property self);
  component ← defined "regexp" (object_get components key);
  r ← defined method (regexp component);
  Return (component, r).

(** Whether the regexp of the component of an entry of [values] matches it
    ([false] also when there is no such regexp), and the entries [test]
    runs a regexp on: all up to and including the first that does not
    match. *)
Definition matches (self : Receiver) (entry : string * jsstring) : bool :=
  match component_regexp "test" self entry.1 with
  | Return (_, r) => regexp_test r entry.2
  | Throw _ => false
  end.

Fixpoint tested (self : Receiver) (values : object jsstring) : object jsstring :=
  match values with
  | [] => []
  | entry :: rest => entry :: (if matches self entry then tested self rest else [])
  end.

Definition testing (entry : string * jsstring) : event :=
  call_regexp_test entry.1 entry.2.

(** Capture [i] of a match array as a string: the empty string when the
    capture did not take part in the match (or is not there). *)
Definition capture (match_ : list (option jsstring)) (i : nat) : jsstring :=
  default [] (mjoin (match_ !! i)).

(** Two completions that return the same value, or both throw. *)
Inductive same_outcome {A} : completion A -> completion A -> Prop :=
| same_return a : same_outcome (Return a) (Return a)
| same_throw e1 e2 : same_outcome (Throw e1) (Throw e2).

(** What [pattern.test(U) === (pattern.exec(U) !== null)] asks of the two
    completions. *)
Definition agree {R} (t : completion bool) (e : completion (option R)) : Prop :=
  match t, e with
  | Return b, Return o => b = bool_decide (is_Some o)
  | Throw _, Throw _ => True
  | _, _ => False
  end.

(** A converter whose outcome -- which value it returns, or that it throws --
    does not depend on the texts in [opts]. *)
Definition insensitive {A} (f : value -> Opts -> completion A) : Prop :=
  forall V o1 o2,
    treatNullAsEmptyString o1 = treatNullAsEmptyString o2 ->
    same_outcome (f V o1) (f V o2).

(** A computation that only observes: it leaves the receiver as it is, its
    result does not depend on the log, and it only appends to the log. *)
Definition observer {A} (m : M A) : Prop :=
  forall self tr, m (World self tr) = (outcome m self, World self (tr ++ calls m self)).

(** A value all of whose code units are 16-bit, where it is a string. *)
Definition code_units (V : value) : Prop :=
  match V with
  | VString s => Forall code_unit s
  | _ => True
  end.


(** The [opts] a dictionary converter hands to the converter of a member:
    [{ ...opts, context }] with the context that names the member. *)
Definition member_opts (name key : string) (opts : Opts) : Opts :=
  {| prefix := prefix opts;
     context := Some ("'" +:+ key +:+ "' of '" +:+ name +:+ "'" +:+
       (if truthy (context opts) then " (" +:+ default "" (context opts) +:+ ")" else ""));
     treatNullAsEmptyString := treatNullAsEmptyString opts |}.

(** The exception of a dictionary converter for a required member that is
    missing. *)
Definition missing_member (name key : string) (opts : Opts) : exn :=
  makeException TypeError
    ("can not be converted to '" +:+ name +:+ "' because '" +:+ key +:+
     "' is required in '" +:+ name +:+ "'.") opts.

(** The members of [URLPatternInit] in the order the converter visits them. *)
Definition URLPatternInit_keys : list string :=
  ["baseURL"; "hash"; "hostname"; "password"; "pathname"; "port"; "protocol"; "search";
   "username"].


(** A USVString value: a string without unpaired surrogate. *)
Definition USVString_value (v : value) : Prop :=
  exists U, v = VString U /\ isWellFormed U = true.

(** A [URLPatternInit] value: a dictionary that has no other members than
    the nine declared ones, each a USVString. *)
Definition URLPatternInit_value (v : value) : Prop :=
  exists d, v = VObject d /\
    forall k x, d !! k = Some x -> k ∈ URLPatternInit_keys /\ USVString_value x.

(** Arguments as the WebAssembly module expects them, and a host call that
    hands it such arguments (any call of the regular expression engine
    passes). *)
Definition module_arguments (input baseURL : value) : Prop :=
  (USVString_value input \/ URLPatternInit_value input) /\
  (baseURL = VUndefined \/ USVString_value baseURL).

Definition module_call (e : event) : Prop :=
  match e with
  | call_urlpatternParse input baseURL
  | call_urlpatternProcessMatchInput input baseURL => module_arguments input baseURL
  | _ => True
  end.


(** The call [exec] makes where [test] makes a given call: the same, but on
    a regular expression [exec] in place of [test]. *)
Definition as_exec (e : event) : event :=
  match e with
  | call_regexp_test key input => call_regexp_exec key input
  | _ => e
  end.


(** Members in ascending order of their keys: the second key is not less
    than the first. *)
Definition key_le (a b : member) : Prop := String.ltb (key b) (key a) = false.

(** An argument all of whose strings are sequences of 16-bit code units:
    the argument itself where it is a string, its members where it is an
    object. *)
Definition argument_code_units (V : value) : Prop :=
  match V with
  | VString s => Forall code_unit s
  | VObject props => forall k x, props !! k = Some x -> code_units x
  | _ => True
  end.


(** * Properties *)

(** ** The USVString converter *)

Lemma land_high_surrogate c : high_surrogate c = true -> Z.land c 0x3ff = c - 0xD800.
Proof.
  unfold high_surrogate. intros H.
  change 0x3ff with (Z.ones 10). rewrite Z.land_ones by lia.
  change (2 ^ 10) with 1024.
  replace c with ((c - 0xD800) + 54 * 1024) at 1 by lia.
  rewrite Z.mod_add by lia. apply Z.mod_small. lia.
Qed.

Lemma land_low_surrogate d : low_surrogate d = true -> Z.land d 0x3ff = d - 0xDC00.
Proof.
  unfold low_surrogate. intros H.
  change 0x3ff with (Z.ones 10). rewrite Z.land_ones by lia.
  change (2 ^ 10) with 1024.
  replace d with ((d - 0xDC00) + 55 * 1024) at 1 by lia.
  rewrite Z.mod_add by lia. apply Z.mod_small. lia.
Qed.

(** The code point the loop computes for a pair is the one the pair encodes,
    and [String.fromCodePoint] writes it back as the same two code units. *)
Lemma fromCodePoint_pair c d :
  high_surrogate c = true -> low_surrogate d = true ->
  Z.shiftl 2 15 + Z.shiftl 2 9 * Z.land c 0x3ff + Z.land d 0x3ff
    = 0x10000 + 0x400 * (c - 0xD800) + (d - 0xDC00) /\
  fromCodePoint (Z.shiftl 2 15 + Z.shiftl 2 9 * Z.land c 0x3ff + Z.land d 0x3ff)
    = Return [c; d].
Proof.
  intros Hc Hd.
  rewrite (land_high_surrogate c Hc), (land_low_surrogate d Hd).
  change (Z.shiftl 2 15) with 0x10000. change (Z.shiftl 2 9) with 0x400.
  split; [reflexivity|].
  unfold high_surrogate, low_surrogate in *.
  unfold fromCodePoint.
  set (cp := 0x10000 + 0x400 * (c - 0xD800) + (d - 0xDC00)).
  assert (Hcp : cp - 0x10000 = (d - 0xDC00) + (c - 0xD800) * 1024) by (unfold cp; lia).
  destruct ((0 <=? cp) && (cp <=? 0xFFFF)) eqn:E1; [lia|]. clear E1.
  destruct ((0x10000 <=? cp) && (cp <=? 0x10FFFF)) eqn:E2; [|lia]. clear E2.
  rewrite Hcp.
  f_equal. f_equal; [|f_equal].
  - rewrite Z.shiftr_div_pow2 by lia. change (2 ^ 10) with 1024.
    rewrite Z.div_add by lia. rewrite Z.div_small by lia. lia.
  - change 0x3FF with (Z.ones 10). rewrite Z.land_ones by lia.
    change (2 ^ 10) with 1024.
    rewrite Z.mod_add by lia. rewrite Z.mod_small by lia. lia.
Qed.

Lemma fromCodePoint_unit c : code_unit c -> fromCodePoint c = Return [c].
Proof.
  unfold code_unit, fromCodePoint. intros H.
  destruct (_ && _) eqn:E; [reflexivity|lia].
Qed.

Lemma charCodeAt_middle (pre : jsstring) c (rest : jsstring) :
  charCodeAt (pre ++ c :: rest) (Z.of_nat (length pre)) = c.
Proof.
  unfold charCodeAt. destruct (Z.ltb_spec (Z.of_nat (length pre)) 0) as [E|E]; [lia|].
  rewrite Nat2Z.id, list_lookup_middle by reflexivity. reflexivity.
Qed.

Lemma USVString_loop_exit (Str : jsstring) n i U :
  n <= i -> USVString_loop Str n i U = Return U.
Proof.
  intros H. rewrite USVString_loop_equation_1.
  destruct (decide (i < n)) as [Hlt|Hge]; [lia|reflexivity].
Qed.

Lemma USVString_loop_step (Str : jsstring) n i U :
  i < n ->
  USVString_loop Str n i U =
    let c := charCodeAt Str i in
    if (c <? 0xd800) || (c >? 0xdfff) then
      u ← fromCodePoint c; USVString_loop Str n (i + 1) (U ++ u)
    else if (0xdc00 <=? c) && (c <=? 0xdfff) then
      u ← fromCodePoint 0xfffd; USVString_loop Str n (i + 1) (U ++ u)
    else if i =? n - 1 then
      u ← fromCodePoint 0xfffd; USVString_loop Str n (i + 1) (U ++ u)
    else
      let d := charCodeAt Str (i + 1) in
      if (0xdc00 <=? d) && (d <=? 0xdfff) then
        u ← fromCodePoint (Z.shiftl 2 15 + Z.shiftl 2 9 * Z.land c 0x3ff + Z.land d 0x3ff);
        USVString_loop Str n (i + 1 + 1) (U ++ u)
      else
        u ← fromCodePoint 0xfffd; USVString_loop Str n (i + 1) (U ++ u).
Proof.
  intros H. rewrite USVString_loop_equation_1.
  destruct (decide (i < n)) as [Hlt|Hge]; [|lia].
  rewrite USVString_loop_clause_1_equation_1. reflexivity.
Qed.

Ltac solve_length := rewrite ?length_app in *; simpl in *; lia.

(** The loop, started anywhere in the string, appends the well-formed image
    of what is left; in particular it always returns. *)
Lemma USVString_loop_toWellFormed (k : nat) :
  forall (suffix pre U : jsstring),
    (length suffix <= k)%nat ->
    Forall code_unit suffix ->
    USVString_loop (pre ++ suffix) (Z.of_nat (length (pre ++ suffix)))
      (Z.of_nat (length pre)) U = Return (U ++ toWellFormed suffix).
Proof.
  induction k as [|k IH]; intros suffix pre U Hk Hcu.
  { destruct suffix; [|simpl in Hk; lia].
    rewrite USVString_loop_exit by solve_length. simpl. by rewrite app_nil_r. }
  destruct suffix as [|c rest].
  { rewrite USVString_loop_exit by solve_length. simpl. by rewrite app_nil_r. }
  apply Forall_cons in Hcu as [Hc Hrest].
  assert (Hnext : forall u,
    USVString_loop (pre ++ c :: rest) (Z.of_nat (length (pre ++ c :: rest)))
      (Z.of_nat (length pre) + 1) (U ++ u) = Return ((U ++ u) ++ toWellFormed rest)).
  { intros u. replace (pre ++ c :: rest) with ((pre ++ [c]) ++ rest)
      by (by rewrite <- app_assoc).
    replace (Z.of_nat (length pre) + 1) with (Z.of_nat (length (pre ++ [c])))
      by solve_length.
    apply IH; [simpl in Hk; lia|done]. }
  rewrite USVString_loop_step by solve_length.
  cbv zeta. rewrite charCodeAt_middle.
  assert (H65533 : fromCodePoint 0xfffd = Return [0xfffd]) by reflexivity.
  unfold code_unit in Hc. simpl toWellFormed. unfold high_surrogate, low_surrogate.
  destruct ((c <? 0xd800) || (c >? 0xdfff)) eqn:E1.
  { rewrite fromCodePoint_unit by done. simpl. rewrite Hnext.
    destruct ((0xD800 <=? c) && (c <=? 0xDBFF)) eqn:E2; [lia|].
    destruct ((0xDC00 <=? c) && (c <=? 0xDFFF)) eqn:E3; [lia|].
    by rewrite <- app_assoc. }
  destruct ((0xdc00 <=? c) && (c <=? 0xdfff)) eqn:E2.
  { rewrite H65533. simpl. rewrite Hnext.
    destruct ((0xD800 <=? c) && (c <=? 0xDBFF)) eqn:E3; [lia|].
    by rewrite <- app_assoc. }
  destruct ((0xD800 <=? c) && (c <=? 0xDBFF)) eqn:E3; [|lia].
  destruct rest as [|d rest'].
  { destruct (Z.eqb_spec (Z.of_nat (length pre))
                (Z.of_nat (length (pre ++ [c])) - 1)) as [E|E];
      [|solve_length].
    rewrite H65533. simpl. rewrite Hnext. simpl. by rewrite <- app_assoc. }
  destruct (Z.eqb_spec (Z.of_nat (length pre))
              (Z.of_nat (length (pre ++ c :: d :: rest')) - 1)) as [E|E];
    [solve_length|].
  assert (Hd : charCodeAt (pre ++ c :: d :: rest') (Z.of_nat (length pre) + 1) = d).
  { replace (pre ++ c :: d :: rest') with ((pre ++ [c]) ++ d :: rest')
      by (by rewrite <- app_assoc).
    replace (Z.of_nat (length pre) + 1) with (Z.of_nat (length (pre ++ [c])))
      by solve_length.
    apply charCodeAt_middle. }
  rewrite Hd.
  destruct ((0xdc00 <=? d) && (d <=? 0xdfff)) eqn:E4.
  - destruct (fromCodePoint_pair c d) as [_ ->]; [done|done|].
    simpl.
    replace (pre ++ c :: d :: rest') with ((pre ++ [c; d]) ++ rest')
      by (by rewrite <- app_assoc).
    replace (Z.of_nat (length pre) + 1 + 1) with (Z.of_nat (length (pre ++ [c; d])))
      by solve_length.
    rewrite IH.
    + by rewrite <- app_assoc.
    + simpl in Hk. lia.
    + by apply Forall_cons in Hrest as [_ ?].
  - rewrite H65533. simpl. rewrite Hnext. by rewrite <- app_assoc.
Qed.

(** Induction that follows the pairing: a step may consume one code unit or
    two. *)
Lemma surrogate_induction (P : jsstring -> Prop) :
  P [] ->
  (forall c rest, P rest -> (forall d rest', rest = d :: rest' -> P rest') -> P (c :: rest)) ->
  forall Str, P Str.
Proof.
  intros Hnil Hstep.
  assert (H : forall Str, P Str /\ forall d rest', Str = d :: rest' -> P rest').
  { induction Str as [|c rest [IH1 IH2]].
    - split; [done|]. intros d rest' Heq. discriminate Heq.
    - split; [by apply Hstep|]. intros d rest' Heq. by injection Heq as -> ->. }
  intros Str. apply H.
Qed.

Lemma toWellFormed_isWellFormed Str : isWellFormed (toWellFormed Str) = true.
Proof.
  induction Str as [|c rest IH1 IH2] using surrogate_induction; [done|].
  simpl. destruct (high_surrogate c) eqn:Hc.
  - destruct rest as [|d rest']; [done|].
    destruct (low_surrogate d) eqn:Hd.
    + simpl. rewrite Hc, Hd. simpl. by eapply IH2.
    + change (isWellFormed (0xFFFD :: toWellFormed (d :: rest')))
        with (isWellFormed (toWellFormed (d :: rest'))). done.
  - destruct (low_surrogate c) eqn:Hl.
    + change (isWellFormed (0xFFFD :: toWellFormed rest))
        with (isWellFormed (toWellFormed rest)). done.
    + simpl. rewrite Hc, Hl. done.
Qed.

Lemma toWellFormed_id Str : isWellFormed Str = true -> toWellFormed Str = Str.
Proof.
  induction Str as [|c rest IH1 IH2] using surrogate_induction; [done|].
  simpl. destruct (high_surrogate c) eqn:Hc.
  - destruct rest as [|d rest']; [done|].
    destruct (low_surrogate d) eqn:Hd; simpl; [|done].
    intros Hwf. f_equal. f_equal. by eapply IH2.
  - destruct (low_surrogate c) eqn:Hl; simpl; [done|].
    intros Hwf. f_equal. by apply IH1.
Qed.

Lemma high_surrogate_surrogate c : high_surrogate c = true -> surrogate c = true.
Proof. unfold high_surrogate, surrogate. lia. Qed.

Lemma low_surrogate_surrogate c : low_surrogate c = true -> surrogate c = true.
Proof. unfold low_surrogate, surrogate. lia. Qed.

Lemma not_surrogate c :
  high_surrogate c = false -> low_surrogate c = false -> surrogate c = false.
Proof. unfold high_surrogate, low_surrogate, surrogate. lia. Qed.

Lemma pair_not_surrogate c d :
  high_surrogate c = true -> low_surrogate d = true ->
  surrogate (0x10000 + 0x400 * (c - 0xD800) + (d - 0xDC00)) = false.
Proof. unfold high_surrogate, low_surrogate, surrogate. lia. Qed.

Lemma toWellFormed_cons c rest :
  toWellFormed (c :: rest) =
    if high_surrogate c then
      match rest with
      | d :: rest' =>
        if low_surrogate d then c :: d :: toWellFormed rest'
        else 0xFFFD :: toWellFormed rest
      | [] => [0xFFFD]
      end
    else if low_surrogate c then 0xFFFD :: toWellFormed rest
    else c :: toWellFormed rest.
Proof. reflexivity. Qed.

Lemma code_points_cons c rest :
  code_points (c :: rest) =
    if high_surrogate c then
      match rest with
      | d :: rest' =>
        if low_surrogate d
        then (0x10000 + 0x400 * (c - 0xD800) + (d - 0xDC00)) :: code_points rest'
        else c :: code_points rest
      | [] => [c]
      end
    else c :: code_points rest.
Proof. reflexivity. Qed.

Lemma code_points_replacement Str : code_points (0xFFFD :: Str) = 0xFFFD :: code_points Str.
Proof. reflexivity. Qed.

Lemma toWellFormed_code_points Str :
  code_points (toWellFormed Str) = replacement <$> code_points Str.
Proof.
  induction Str as [|c rest IH1 IH2] using surrogate_induction; [done|].
  rewrite (toWellFormed_cons c rest), (code_points_cons c rest).
  destruct (high_surrogate c) eqn:Hc.
  - assert (Hrc : replacement c = 0xFFFD).
    { unfold replacement. by rewrite high_surrogate_surrogate. }
    destruct rest as [|d rest'].
    { rewrite fmap_cons, Hrc. done. }
    destruct (low_surrogate d) eqn:Hd.
    + rewrite code_points_cons, Hc, Hd, fmap_cons. f_equal; [|by eapply IH2].
      unfold replacement. by rewrite pair_not_surrogate.
    + rewrite code_points_replacement, IH1, fmap_cons, Hrc. done.
  - rewrite fmap_cons. destruct (low_surrogate c) eqn:Hl.
    + rewrite code_points_replacement, IH1. f_equal.
      unfold replacement. by rewrite low_surrogate_surrogate.
    + rewrite code_points_cons, Hc, IH1. f_equal.
      unfold replacement. by rewrite not_surrogate.
Qed.

Lemma converters_DOMString_string (Str : jsstring) (opts : Opts) :
  converters_DOMString (VString Str) opts = Return Str.
Proof. unfold converters_DOMString. simpl. by rewrite andb_false_r. Qed.

Lemma converters_USVString_string (Str : jsstring) (opts : Opts) :
  converters_USVString (VString Str) opts =
    (U ← USVString_loop Str (Z.of_nat (length Str)) 0 []; Return (VString U)).
Proof. unfold converters_USVString. by rewrite converters_DOMString_string. Qed.

(** C9.  On every string (a sequence of 16-bit code units) the USVString
    converter returns, and what it returns is well-formed UTF-16: its code
    points are those of the input with every unpaired surrogate replaced by
    U+FFFD and every surrogate pair kept as its supplementary code point;
    on a string that is well-formed already it is the identity. *)
Theorem USVString_well_formed (Str : jsstring) (opts : Opts) :
  Forall code_unit Str ->
  exists U,
    converters_USVString (VString Str) opts = Return (VString U) /\
    U = toWellFormed Str /\
    isWellFormed U = true /\
    code_points U = replacement <$> code_points Str /\
    (isWellFormed Str = true -> U = Str).
Proof.
  intros Hcu. exists (toWellFormed Str).
  split; [|split; [done|split; [apply toWellFormed_isWellFormed|
           split; [apply toWellFormed_code_points|apply toWellFormed_id]]]].
  rewrite converters_USVString_string.
  pose proof (USVString_loop_toWellFormed (length Str) Str [] [] (le_n _) Hcu) as H.
  rewrite !app_nil_l in H. change (Z.of_nat (length [])) with 0 in H.
  rewrite H. done.
Qed.

(** ** The methods, step by step *)

Lemma test_unfold args w :
  test args w =
    match assertBranded (this w) with
    | Throw e => (Throw e, w)
    | Return _ =>
      match convert_arguments "Failed to execute 'test' on 'URLPattern'" args with
      | Throw e => (Throw e, w)
      | Return (input, baseURL) =>
        let w' := logged w (call_urlpatternProcessMatchInput input baseURL) in
        match urlpatternProcessMatchInput input baseURL with
        | Throw e => (Throw e, w')
        | Return None => (Return false, w')
        | Return (Some (values, _)) => test_loop values w'
        end
      end
    end.
Proof.
  unfold test, convert_arguments, mbind, M_bind, completion_bind, lift, get_this,
    host_call, logged, mret, M_ret.
  destruct (assertBranded (this w)); [|done].
  destruct (requiredArguments _ _ _); [|done].
  destruct (converters_URLPatternInput _ _) as [input|]; [|done].
  destruct (negb (is_undefined (argument args 1))).
  - destruct (converters_USVString _ _) as [baseURL|]; [|done].
    destruct (urlpatternProcessMatchInput input baseURL) as [[[values inputs]|]|]; done.
  - destruct (urlpatternProcessMatchInput input _) as [[[values inputs]|]|]; done.
Qed.

Lemma exec_unfold args w :
  exec args w =
    match assertBranded (this w) with
    | Throw e => (Throw e, w)
    | Return _ =>
      match convert_arguments "Failed to execute 'exec' on 'URLPattern'" args with
      | Throw e => (Throw e, w)
      | Return (input, baseURL) =>
        let w' := logged w (call_urlpatternProcessMatchInput input baseURL) in
        match urlpatternProcessMatchInput input baseURL with
        | Throw e => (Throw e, w')
        | Return None => (Return None, w')
        | Return (Some (values, inputs)) =>
          exec_loop values
            {[ "inputs" := inputs_property
                 (if is_null (default VUndefined (inputs !! 1%nat))
                  then removelast inputs else inputs) ]} w'
        end
      end
    end.
Proof.
  unfold exec, convert_arguments, mbind, M_bind, completion_bind, lift, get_this,
    host_call, logged, mret, M_ret.
  destruct (assertBranded (this w)); [|done].
  destruct (requiredArguments _ _ _); [|done].
  destruct (converters_URLPatternInput _ _) as [input|]; [|done].
  destruct (negb (is_undefined (argument args 1))).
  - destruct (converters_USVString _ _) as [baseURL|]; [|done].
    destruct (urlpatternProcessMatchInput input baseURL) as [[[values inputs]|]|]; done.
  - destruct (urlpatternProcessMatchInput input _) as [[[values inputs]|]|]; done.
Qed.

Lemma test_loop_unfold key v rest w :
  test_loop ((key, v) :: rest) w =
    match component_regexp "test" (this w) key with
    | Throw e => (Throw e, w)
    | Return (_, r) =>
      let w' := logged w (call_regexp_test key v) in
      if regexp_test r v then test_loop rest w' else (Return false, w')
    end.
Proof.
  simpl. unfold component_regexp, mbind, M_bind, completion_bind, lift, get_this,
    host_call, logged, mret, M_ret.
  destruct (defined key _) as [components|]; [|done].
  destruct (defined "regexp" _) as [component|]; [|done].
  destruct (defined "test" _) as [r|]; [|done].
  by destruct (regexp_test r v).
Qed.

Lemma exec_loop_unfold key v rest result w :
  exec_loop ((key, v) :: rest) result w =
    match component_regexp "exec" (this w) key with
    | Throw e => (Throw e, w)
    | Return (component, r) =>
      let w' := logged w (call_regexp_exec key v) in
      match regexp_exec r v with
      | None => (Return None, w')
      | Some match_ =>
        exec_loop rest
          (<[key := component_property
               {| input := v;
                  groups := fromEntries (groupEntries (groupNameList component) match_) |}]>
             result) w'
      end
    end.
Proof.
  simpl. unfold component_regexp, mbind, M_bind, completion_bind, lift, get_this,
    host_call, logged, mret, M_ret.
  destruct (defined key _) as [components|]; [|done].
  destruct (defined "regexp" _) as [component|]; [|done].
  destruct (defined "exec" _) as [r|]; [|done].
  by destruct (regexp_exec r v).
Qed.

(** Which method is about to be called does not change whether the regexp
    is reached, nor which one it is. *)
Lemma component_regexp_method m1 m2 self key :
  same_outcome (component_regexp m1 self key) (component_regexp m2 self key).
Proof.
  unfold component_regexp, mbind, completion_bind.
  destruct (defined key _) as [components|]; [|constructor].
  destruct (defined "regexp" _) as [component|]; [|constructor].
  destruct (regexp component); constructor.
Qed.

(** ** [test] against [exec] *)

Lemma loops_agree values :
  forall result w w', this w = this w' ->
    agree (test_loop values w).1 (exec_loop values result w').1.
Proof.
  induction values as [|[key v] rest IH]; intros result w w' Hthis.
  { done. }
  rewrite test_loop_unfold, exec_loop_unfold, <- Hthis.
  destruct (component_regexp_method "test" "exec" (this w) key) as [[component r]|]; [|done].
  unfold regexp_test. cbv zeta.
  destruct (regexp_exec r v) as [match_|] eqn:Hexec.
  - rewrite bool_decide_eq_true_2 by done. by apply IH.
  - rewrite bool_decide_eq_false_2 by (by intros [? ?]). done.
Qed.

(** ** The converters do not look at the texts in [opts] *)

Lemma same_outcome_refl {A} (c : completion A) : same_outcome c c.
Proof. destruct c; constructor. Qed.

Lemma same_outcome_bind {A B} (c1 c2 : completion A) (f1 f2 : A -> completion B) :
  same_outcome c1 c2 ->
  (forall a, same_outcome (f1 a) (f2 a)) ->
  same_outcome (c1 ≫= f1) (c2 ≫= f2).
Proof. intros [a|e1 e2] Hf; [apply Hf|constructor]. Qed.

Lemma converters_DOMString_insensitive : insensitive converters_DOMString.
Proof.
  intros V o1 o2 Htreat. unfold converters_DOMString. rewrite Htreat.
  destruct (_ && _); [constructor|].
  destruct (String.eqb _ _); [constructor|apply same_outcome_refl].
Qed.

Lemma converters_USVString_insensitive : insensitive converters_USVString.
Proof.
  intros V o1 o2 Htreat. unfold converters_USVString.
  apply same_outcome_bind; [by apply converters_DOMString_insensitive|].
  intros Str. apply same_outcome_refl.
Qed.

Lemma convert_members_insensitive name typeV esDict allMembers :
  Forall (fun m => insensitive (converter m)) allMembers ->
  forall idlDict o1 o2,
    treatNullAsEmptyString o1 = treatNullAsEmptyString o2 ->
    same_outcome (convert_members name typeV esDict o1 allMembers idlDict)
                 (convert_members name typeV esDict o2 allMembers idlDict).
Proof.
  induction 1 as [|member rest Hmember _ IH]; intros idlDict o1 o2 Htreat.
  { apply same_outcome_refl. }
  simpl. destruct (negb (is_undefined _)).
  - apply same_outcome_bind; [by apply Hmember|]. intros v. by apply IH.
  - destruct (required member); [constructor|by apply IH].
Qed.

Lemma sort_insert_Forall {A} (P : A -> Prop) cmp x l :
  P x -> Forall P l -> Forall P (sort_insert cmp x l).
Proof.
  intros Hx. induction 1 as [|y l Hy Hl IH]; simpl.
  - by repeat constructor.
  - destruct (cmp x y <? 0); repeat constructor; done.
Qed.

Lemma sort_Forall {A} (P : A -> Prop) cmp l : Forall P l -> Forall P (sort cmp l).
Proof.
  unfold sort. generalize (@nil A) (Forall_nil_2 P).
  induction l as [|x l IH]; intros sorted Hsorted Hl; [done|].
  apply Forall_cons in Hl as [Hx Hl]. simpl.
  apply IH; [by apply sort_insert_Forall|done].
Qed.

Lemma createDictionaryConverter_insensitive name dictionaries :
  Forall (fun m => insensitive (converter m)) (concat dictionaries) ->
  insensitive (createDictionaryConverter name dictionaries).
Proof.
  intros Hall V o1 o2 Htreat. unfold createDictionaryConverter.
  apply same_outcome_bind; [apply same_outcome_refl|]. intros typeV.
  destruct (negb _); [constructor|].
  destruct (_ && _); [apply same_outcome_refl|].
  apply same_outcome_bind; [|intros; apply same_outcome_refl].
  apply convert_members_insensitive; [|done]. by apply sort_Forall.
Qed.

Lemma converters_URLPatternInit_insensitive : insensitive converters_URLPatternInit.
Proof.
  apply createDictionaryConverter_insensitive. simpl.
  repeat constructor; apply converters_USVString_insensitive.
Qed.

Lemma converters_URLPatternInput_insensitive : insensitive converters_URLPatternInput.
Proof.
  intros V o1 o2 Htreat. unfold converters_URLPatternInput.
  destruct (String.eqb _ _).
  - by apply converters_URLPatternInit_insensitive.
  - by apply converters_USVString_insensitive.
Qed.

Lemma convert_arguments_prefix p1 p2 args :
  same_outcome (convert_arguments p1 args) (convert_arguments p2 args).
Proof.
  unfold convert_arguments.
  apply same_outcome_bind.
  { unfold requiredArguments. destruct (_ <? _)%nat; constructor. }
  intros _. apply same_outcome_bind.
  { by apply converters_URLPatternInput_insensitive. }
  intros input. apply same_outcome_bind; [|intros; apply same_outcome_refl].
  destruct (negb _); [by apply converters_USVString_insensitive|apply same_outcome_refl].
Qed.

Lemma test_agrees_with_exec self args :
  agree (outcome (test args) self) (outcome (exec args) self).
Proof.
  unfold outcome, run. rewrite test_unfold, exec_unfold. simpl this.
  destruct (assertBranded self); [|done].
  destruct (convert_arguments_prefix "Failed to execute 'test' on 'URLPattern'"
              "Failed to execute 'exec' on 'URLPattern'" args) as [[input baseURL]|]; [|done].
  cbv zeta.
  destruct (urlpatternProcessMatchInput input baseURL) as [[[values inputs]|]|]; simpl.
  - by apply loops_agree.
  - done.
  - done.
Qed.

(** C1.  For every receiver -- every constructed URLPattern among them -- and
    every argument list (a string or a structured object, with or without a
    base URL), [test] returns [true] exactly when [exec] returns a result
    that is not [null], returns [false] exactly when [exec] returns [null],
    and throws exactly when [exec] throws. *)
Theorem test_iff_exec (self : Receiver) (args : list value) :
  (outcome (test args) self = Return true <->
     exists result, outcome (exec args) self = Return (Some result)) /\
  (outcome (test args) self = Return false <->
     outcome (exec args) self = Return None) /\
  throws (outcome (test args) self) = throws (outcome (exec args) self).
Proof.
  pose proof (test_agrees_with_exec self args) as H. unfold agree in H.
  destruct (outcome (test args) self) as [b|e1], (outcome (exec args) self) as [[r|]|e2];
    try done.
  - rewrite bool_decide_eq_true_2 in H by done. subst b.
    split; [|split]; [|done..]. split; [by exists r|done].
  - rewrite bool_decide_eq_false_2 in H by (by intros [? ?]). subst b.
    split; [|split]; [|done..]. split; [done|]. by intros [? ?].
  - split; [|split]; [|done..]. split; [done|]. by intros [? ?].
Qed.

(** ** [test], [exec] and the getters only observe *)

Lemma observer_ret {A} (a : A) : observer (mret a).
Proof. intros self tr. unfold outcome, calls, run. simpl. by rewrite app_nil_r. Qed.

Lemma observer_lift {A} (c : completion A) : observer (lift c).
Proof. intros self tr. unfold outcome, calls, run. simpl. by rewrite app_nil_r. Qed.

Lemma observer_get_this : observer get_this.
Proof. intros self tr. unfold outcome, calls, run. simpl. by rewrite app_nil_r. Qed.

Lemma observer_host_call {A} e (c : completion A) : observer (host_call e c).
Proof. intros self tr. done. Qed.

Lemma observer_bind {A B} (m : M A) (f : A -> M B) :
  observer m -> (forall a, observer (f a)) -> observer (m ≫= f).
Proof.
  intros Hm Hf self tr. unfold outcome, calls, run, mbind, M_bind.
  rewrite (Hm self tr), (Hm self []).
  destruct (outcome m self) as [a|e]; [|done].
  rewrite (Hf a self (tr ++ calls m self)), (Hf a self ([] ++ calls m self)).
  simpl. by rewrite app_assoc.
Qed.

Ltac observe :=
  repeat first
    [ apply observer_ret | apply observer_lift | apply observer_get_this
    | apply observer_host_call | apply observer_bind; [|intros ?]
    | match goal with
      | |- observer (match ?x with _ => _ end) => destruct x
      | |- observer (let (_, _) := ?x in _) => destruct x
      end ].

Lemma observer_test_loop values : observer (test_loop values).
Proof.
  induction values as [|[key v] rest IH]; simpl; observe; done.
Qed.

Lemma observer_exec_loop values : forall result, observer (exec_loop values result).
Proof.
  induction values as [|[key v] rest IH]; intros result; simpl; observe; apply IH.
Qed.

Lemma observer_test args : observer (test args).
Proof.
  unfold test. observe; apply observer_test_loop.
Qed.

Lemma observer_exec args : observer (exec args).
Proof.
  unfold exec. observe; apply observer_exec_loop.
Qed.

Lemma observer_pattern_getter name : observer (pattern_getter name).
Proof. unfold pattern_getter. observe. Qed.

Lemma observer_getters : Forall observer getters.
Proof. repeat constructor; apply observer_pattern_getter. Qed.

Lemma invoke_all_this invocations :
  forall w, this (invoke_all invocations w) = this w.
Proof.
  unfold invoke_all.
  induction invocations as [|i rest IH]; intros [self tr]; [done|].
  simpl. rewrite IH. destruct i as [args|args]; simpl.
  - by rewrite (observer_test args self tr).
  - by rewrite (observer_exec args self tr).
Qed.

(** C8.  [test] and [exec] do not change the receiver: after any sequence of
    [test] and [exec] calls with any arguments the receiver is what it was
    (for a constructed pattern, what it was right after construction), so
    each of the eight getters answers as before, and [test] and [exec]
    answer on any arguments as they would have before the calls. *)
Theorem test_exec_leave_instance (self : Receiver) (invocations : list invocation) :
  let after := invoke_all invocations (World self []) in
  this after = self /\
  Forall (fun getter => (getter after).1 = outcome getter self) getters /\
  (forall args, (test args after).1 = outcome (test args) self) /\
  (forall args, (exec args after).1 = outcome (exec args) self).
Proof.
  intros after.
  assert (Hthis : this after = self) by apply invoke_all_this.
  destruct after as [self' tr]. simpl in Hthis. subst self'.
  split; [done|]. split; [|split].
  - eapply Forall_impl; [apply observer_getters|].
    intros getter Hobs. by rewrite (Hobs self tr).
  - intros args. by rewrite (observer_test args self tr).
  - intros args. by rewrite (observer_exec args self tr).
Qed.

(** ** The brand check *)

(** C10 (as amended).  For every receiver that fails the brand check -- it is
    not [instanceof URLPattern], or its brand property is not the brand
    symbol, as for any object that lacks the property -- [test], [exec] and
    each of the eight getters throw the TypeError "Illegal invocation", and
    nothing else has happened by then: the receiver and the log of host
    calls are as they were, whatever the arguments. *)
Theorem unbranded_illegal_invocation (self : Receiver) (tr : list event) :
  instanceof_URLPattern self = false \/ is_brand (brand_property self) = false ->
  (forall args, test args (World self tr) =
                  (Throw (Exn TypeError "Illegal invocation"), World self tr)) /\
  (forall args, exec args (World self tr) =
                  (Throw (Exn TypeError "Illegal invocation"), World self tr)) /\
  Forall (fun getter : M jsstring =>
            getter (World self tr) =
              (Throw (Exn TypeError "Illegal invocation"), World self tr)) getters.
Proof.
  intros Hbrand.
  assert (Hassert : assertBranded self = Throw (Exn TypeError "Illegal invocation")).
  { unfold assertBranded. by destruct Hbrand as [-> | ->]; rewrite ?orb_true_r. }
  split; [|split].
  - intros args. rewrite test_unfold. simpl this. by rewrite Hassert.
  - intros args. rewrite exec_unfold. simpl this. by rewrite Hassert.
  - repeat constructor;
      unfold URLPattern_protocol, URLPattern_username, URLPattern_password,
        URLPattern_hostname, URLPattern_port, URLPattern_pathname, URLPattern_search,
        URLPattern_hash, pattern_getter, mbind, M_bind, get_this, lift;
      simpl; by rewrite Hassert.
Qed.

(** ** Construction *)

Lemma append_assoc (a b c : string) : (a +:+ b) +:+ c = a +:+ (b +:+ c).
Proof.
  induction a as [|x a IH]; [done|].
  change (String x ((a +:+ b) +:+ c) = String x (a +:+ (b +:+ c))). by rewrite IH.
Qed.

Lemma append_empty_r (a : string) : a +:+ "" = a.
Proof.
  induction a as [|x a IH]; [done|].
  change (String x (a +:+ "") = String x a). by rewrite IH.
Qed.

Lemma compile_components_cons prefix key component rest w :
  compile_components prefix ((key, component) :: rest) w =
    let w1 := logged w (call_RegExp (regexpString component) "u") in
    match new_RegExp (regexpString component) "u" with
    | Throw e =>
      (Throw (Exn TypeError (prefix +:+ ": " +:+ key +:+ " is invalid; " +:+ message e)), w1)
    | Return r =>
      match compile_components prefix rest w1 with
      | (Return rest', w2) => (Return ((key, with_regexp component r) :: rest'), w2)
      | (Throw e, w2) => (Throw e, w2)
      end
    end.
Proof.
  cbn [compile_components]. unfold mbind, M_bind, host_call, logged, mret, M_ret.
  destruct (new_RegExp (regexpString component) "u") as [r|e]; [|done].
  by destruct (compile_components prefix rest _) as [[rest'|e] w2].
Qed.

Lemma compile_components_run prefix components :
  forall w,
    match compile_components prefix components w with
    | (Return components', w') =>
      Forall2 compiled components components' /\
      w' = World (this w) (trace w ++ (compilation <$> components))
    | (Throw e, w') =>
      exists before key component after e0,
        components = before ++ (key, component) :: after /\
        Forall (fun entry => returns (new_RegExp (regexpString entry.2) "u") = true) before /\
        new_RegExp (regexpString component) "u" = Throw e0 /\
        e = Exn TypeError (prefix +:+ ": " +:+ key +:+ " is invalid; " +:+ message e0) /\
        w' = World (this w) (trace w ++ (compilation <$> before ++ [(key, component)]))
    end.
Proof.
  induction components as [|[key component] rest IH]; intros [self tr].
  { simpl. split; [constructor|]. by rewrite app_nil_r. }
  rewrite compile_components_cons. cbv zeta. unfold logged. simpl this. simpl trace.
  destruct (new_RegExp (regexpString component) "u") as [r|e0] eqn:Hr.
  - specialize (IH (World self (tr ++ [call_RegExp (regexpString component) "u"]))).
    destruct (compile_components prefix rest _) as [[rest'|e] w'].
    + destruct IH as [Hrest ->]. simpl. split.
      * constructor; [|done]. split; [done|]. by exists r.
      * by rewrite <- app_assoc.
    + destruct IH as (before & key' & component' & after & e1 & -> & Hbefore & He1 & -> & ->).
      exists ((key, component) :: before), key', component', after, e1.
      split; [done|]. split; [constructor; [simpl; by rewrite Hr|done]|].
      split; [done|]. split; [done|]. simpl. by rewrite <- app_assoc.
  - exists [], key, component, rest, e0. done.
Qed.

Lemma new_URLPattern_unfold args :
  new_URLPattern args =
    match convert_arguments "Failed to construct 'URLPattern'" args with
    | Throw e => (Throw e, [])
    | Return (input, baseURL) =>
      match urlpatternParse input baseURL with
      | Throw e => (Throw e, [call_urlpatternParse input baseURL])
      | Return components =>
        match compile_components "Failed to construct 'URLPattern'" components
                (World (with_brand new_object (VSymbol brand))
                       [call_urlpatternParse input baseURL]) with
        | (Return components', w) => (Return (with_components (this w) components'), trace w)
        | (Throw e, w) => (Throw e, trace w)
        end
      end
    end.
Proof.
  unfold new_URLPattern, URLPattern_constructor, convert_arguments, mbind, M_bind,
    completion_bind, lift, get_this, set_this, host_call, mret, M_ret.
  simpl.
  destruct (requiredArguments _ _ _); [|done].
  destruct (converters_URLPatternInput _ _) as [input|]; [|done].
  destruct (negb (is_undefined (argument args 1))).
  - destruct (converters_USVString _ _) as [baseURL|]; [|done].
    destruct (urlpatternParse input baseURL) as [components|]; [|done].
    by destruct (compile_components _ _ _) as [[components'|e] w].
  - destruct (urlpatternParse input _) as [components|]; [|done].
    by destruct (compile_components _ _ _) as [[components'|e] w].
Qed.

(** What [new URLPattern] returns is branded and carries components whose
    regexps are all there. *)
Lemma new_URLPattern_returns args self tr :
  new_URLPattern args = (Return self, tr) ->
  exists input baseURL components components',
    convert_arguments "Failed to construct 'URLPattern'" args = Return (input, baseURL) /\
    urlpatternParse input baseURL = Return components /\
    Forall2 compiled components components' /\
    self = {| instanceof_URLPattern := true; brand_property := VSymbol brand;
              components_property := Some components' |} /\
    tr = call_urlpatternParse input baseURL :: (compilation <$> components).
Proof.
  rewrite new_URLPattern_unfold.
  destruct (convert_arguments _ _) as [[input baseURL]|]; [|done].
  destruct (urlpatternParse input baseURL) as [components|] eqn:Hparse; [|done].
  pose proof (compile_components_run "Failed to construct 'URLPattern'" components
    (World (with_brand new_object (VSymbol brand)) [call_urlpatternParse input baseURL])) as H.
  destruct (compile_components _ _ _) as [[components'|e] w]; [|done].
  destruct H as [Hall ->]. simpl. intros [= <- <-].
  by exists input, baseURL, components, components'.
Qed.

Lemma compiled_object_get components components' key :
  Forall2 compiled components components' ->
  key ∈ components.*1 ->
  exists before after r,
    (key, before) ∈ components /\
    object_get components' key = Some after /\
    new_RegExp (regexpString before) "u" = Return r /\
    after = with_regexp before r.
Proof.
  induction 1 as [|[k c] [k' c'] rest rest' [Hk (r & Hr & Hc')] _ IH]; simpl.
  { intros H. by apply elem_of_nil in H. }
  simpl in Hk, Hr, Hc'. subst k' c'.
  destruct (String.eqb_spec k key) as [->|Hne].
  - intros _. exists c, (with_regexp c r), r. split; [left|]. done.
  - intros Hin. apply elem_of_cons in Hin as [Heq|Hin]; [done|].
    destruct (IH Hin) as (before & after & r' & Hb & Ha & Hr' & ->).
    exists before, (with_regexp before r'), r'. split; [by right|done].
Qed.

(** C4.  Construction compiles the regexp of every component before it
    returns: a constructed pattern carries, for each component the pattern
    compiler returned (each of the eight), the regexp the engine made of its
    source with the flag [u], and the engine was called once per component,
    in order.  If the engine rejects the source of any component,
    construction throws a TypeError whose message contains the name of that
    component -- the first one rejected, where compilation stops -- and the
    engine's own message. *)
Theorem regexps_compiled_at_construction (args : list value) (input baseURL : value)
    (components : object Component) :
  convert_arguments "Failed to construct 'URLPattern'" args = Return (input, baseURL) ->
  urlpatternParse input baseURL = Return components ->
  eight_components components ->
  (forall self tr, new_URLPattern args = (Return self, tr) ->
     exists components',
       components_property self = Some components' /\
       Forall2 compiled components components' /\
       (forall key, key ∈ component_keys ->
          exists component r,
            object_get components' key = Some component /\
            regexp component = Some r /\
            new_RegExp (regexpString component) "u" = Return r) /\
       tr = call_urlpatternParse input baseURL :: (compilation <$> components)) /\
  (Exists (fun entry => throws (new_RegExp (regexpString entry.2) "u") = true) components ->
     exists before key component after e msg,
       components = before ++ (key, component) :: after /\
       Forall (fun entry => returns (new_RegExp (regexpString entry.2) "u") = true) before /\
       new_RegExp (regexpString component) "u" = Throw e /\
       new_URLPattern args =
         (Throw (Exn TypeError msg),
          call_urlpatternParse input baseURL ::
            (compilation <$> before ++ [(key, component)])) /\
       contains key msg /\ contains (message e) msg).
Proof.
  intros Hconvert Hparse Height. split.
  - intros self tr Hnew.
    destruct (new_URLPattern_returns _ _ _ Hnew)
      as (input' & baseURL' & components0 & components' & Hc & Hp & Hall & -> & ->).
    rewrite Hconvert in Hc. injection Hc as <- <-.
    rewrite Hparse in Hp. injection Hp as <-.
    exists components'. split; [done|]. split; [done|]. split; [|done].
    intros key Hkey.
    destruct (compiled_object_get components components' key Hall)
      as (before & after & r & _ & Hget & Hr & ->).
    { unfold eight_components in Height. by rewrite Height. }
    by exists (with_regexp before r), r.
  - intros Hfail. rewrite new_URLPattern_unfold, Hconvert, Hparse.
    pose proof (compile_components_run "Failed to construct 'URLPattern'" components
      (World (with_brand new_object (VSymbol brand)) [call_urlpatternParse input baseURL])) as H.
    destruct (compile_components _ _ _) as [[components'|e] w].
    + destruct H as [Hall _]. exfalso.
      clear -Hall Hfail. induction Hall as [|[k c] [k' c'] rest rest' [_ (r & Hr & _)] _ IH].
      * by apply Exists_nil in Hfail.
      * apply Exists_cons in Hfail as [Hhead|Htail]; [|by apply IH].
        simpl in Hhead, Hr. by rewrite Hr in Hhead.
    + destruct H as (before & key & component & after & e0 & -> & Hbefore & He0 & -> & ->).
      exists before, key, component, after, e0. eexists.
      split; [done|]. split; [done|]. split; [done|]. split; [done|]. split.
      * exists ("Failed to construct 'URLPattern'" +:+ ": "), (" is invalid; " +:+ message e0).
        by rewrite append_assoc.
      * exists ("Failed to construct 'URLPattern'" +:+ ": " +:+ key +:+ " is invalid; "), "".
        by rewrite append_empty_r, !append_assoc.
Qed.

Lemma convert_arguments_stringified prefix V Str rest :
  typeof V <> "object" -> typeof V <> "symbol" -> String_ V = Return Str ->
  convert_arguments prefix (V :: rest) = convert_arguments prefix (VString Str :: rest).
Proof.
  intros Hobject Hsymbol HStr. unfold convert_arguments. simpl length.
  assert (Hinput : forall opts,
    treatNullAsEmptyString opts = false ->
    converters_URLPatternInput V opts = converters_URLPatternInput (VString Str) opts).
  { intros opts Htreat. unfold converters_URLPatternInput.
    destruct (String.eqb_spec (typeof V) "object") as [|_]; [done|]. simpl.
    unfold converters_USVString.
    rewrite converters_DOMString_string. unfold converters_DOMString.
    rewrite Htreat. simpl.
    destruct (String.eqb_spec (typeof V) "symbol") as [|_]; [done|]. by rewrite HStr. }
  unfold argument at 1 3. simpl. by rewrite Hinput.
Qed.

(** C3 (as amended).  Construction throws a TypeError when fewer than one
    argument is given.  An input that is not an object is not rejected for
    its type: a symbol makes the converter throw the exception that
    [makeException] builds for it, and any other such value -- [undefined], a
    boolean, a number, a bigint -- is turned into the string [String(V)],
    after which construction goes on exactly as for that string. *)
Theorem construction_argument_checks :
  new_URLPattern [] =
    (Throw (Exn TypeError
       "Failed to construct 'URLPattern': 1 argument required, but only 0 present."), []) /\
  (forall s rest,
     new_URLPattern (VSymbol s :: rest) =
       (Throw (makeException TypeError "is a symbol, which cannot be converted to a string"
                 {| prefix := Some "Failed to construct 'URLPattern'";
                    context := Some "Argument 1";
                    treatNullAsEmptyString := false |}), [])) /\
  (forall V rest,
     typeof V <> "object" -> typeof V <> "symbol" ->
     exists Str, String_ V = Return Str /\
                 new_URLPattern (V :: rest) = new_URLPattern (VString Str :: rest)).
Proof.
  split; [|split].
  - rewrite new_URLPattern_unfold. reflexivity.
  - intros s rest. rewrite new_URLPattern_unfold. reflexivity.
  - intros V rest Hobject Hsymbol.
    assert (HStr : exists Str, String_ V = Return Str).
    { destruct V as [| |[]| | | | |]; simpl; eauto; done. }
    destruct HStr as [Str HStr]. exists Str. split; [done|].
    rewrite !new_URLPattern_unfold.
    by rewrite (convert_arguments_stringified _ V Str rest).
Qed.

(** ** Matching *)

Lemma constructed_branded self : constructed self -> assertBranded self = Return ().
Proof.
  intros [args Hnew]. destruct (new_URLPattern args) as [c tr] eqn:H. simpl in Hnew. subst c.
  destruct (new_URLPattern_returns _ _ _ H) as (? & ? & ? & ? & _ & _ & _ & -> & _).
  reflexivity.
Qed.

Lemma convert_arguments_any p1 p2 args converted :
  convert_arguments p1 args = Return converted ->
  convert_arguments p2 args = Return converted.
Proof.
  intros H. destruct (convert_arguments_prefix p1 p2 args) as [a|e1 e2]; [done|].
  discriminate H.
Qed.

(** C2.  When the match input does not resolve -- the resolver answers
    [null] for the converted arguments, as it does for a string that parses
    neither as an absolute URL nor against the base -- [test] on a constructed
    pattern returns [false] and [exec] returns [null]; neither throws. *)
Theorem unresolved_input_is_no_match (self : Receiver) (args : list value)
    (prefix : string) (input baseURL : value) :
  constructed self ->
  convert_arguments prefix args = Return (input, baseURL) ->
  urlpatternProcessMatchInput input baseURL = Return None ->
  outcome (test args) self = Return false /\
  outcome (exec args) self = Return None.
Proof.
  intros Hself Hconvert Hresolve. unfold outcome, run.
  rewrite test_unfold, exec_unfold. simpl this.
  rewrite (constructed_branded self Hself).
  rewrite (convert_arguments_any _ "Failed to execute 'test' on 'URLPattern'" _ _ Hconvert).
  rewrite (convert_arguments_any _ "Failed to execute 'exec' on 'URLPattern'" _ _ Hconvert).
  cbv zeta. by rewrite Hresolve.
Qed.

Lemma object_get_elem_of {A} (o : object A) key a :
  NoDup o.*1 -> (key, a) ∈ o -> object_get o key = Some a.
Proof.
  induction o as [|[k b] o IH]; simpl; intros Hnodup Hin.
  { by apply elem_of_nil in Hin. }
  apply NoDup_cons in Hnodup as [Hk Hnodup].
  apply elem_of_cons in Hin as [[= <- <-]|Hin].
  - by rewrite String.eqb_refl.
  - destruct (String.eqb_spec k key) as [->|_]; [|by apply IH].
    exfalso. apply Hk. apply list_elem_of_fmap. by exists (key, a).
Qed.

Lemma component_keys_NoDup : NoDup component_keys.
Proof. unfold component_keys. apply (bool_decide_unpack _). by vm_compute. Qed.

Lemma eight_components_NoDup {A} (o : object A) : eight_components o -> NoDup o.*1.
Proof. intros H. unfold eight_components in H. rewrite H. apply component_keys_NoDup. Qed.

(** In a constructed pattern every component has its regexp. *)
Lemma constructed_component_regexp self components key :
  constructed self ->
  components_property self = Some components ->
  key ∈ components.*1 ->
  exists component r,
    object_get components key = Some component /\
    regexp component = Some r /\
    forall method, component_regexp method self key = Return (component, r).
Proof.
  intros [args Hnew] Hcomponents Hkey.
  destruct (new_URLPattern args) as [c tr] eqn:H. simpl in Hnew. subst c.
  destruct (new_URLPattern_returns _ _ _ H)
    as (input & baseURL & components0 & components' & _ & _ & Hall & -> & _).
  simpl in Hcomponents. injection Hcomponents as ->.
  assert (Hkeys : components0.*1 = components.*1).
  { clear -Hall. induction Hall as [|[k c] [k' c'] ? ? [Hk _] _ IH]; [done|].
    rewrite !fmap_cons. simpl in Hk. by f_equal. }
  destruct (compiled_object_get components0 components key Hall)
    as (before & after & r & _ & Hget & _ & ->); [by rewrite Hkeys|].
  exists (with_regexp before r), r. split; [done|]. split; [done|].
  intros method. unfold component_regexp. simpl. by rewrite Hget.
Qed.

Lemma test_loop_run values :
  forall w,
    Forall (fun entry => returns (component_regexp "test" (this w) entry.1) = true) values ->
    test_loop values w =
      (Return (forallb (matches (this w)) values),
       World (this w) (trace w ++ (testing <$> tested (this w) values))).
Proof.
  induction values as [|[key v] rest IH]; intros [self tr] Hall.
  { simpl. by rewrite app_nil_r. }
  apply Forall_cons in Hall as [Hhead Hrest]. simpl in Hhead.
  rewrite test_loop_unfold. simpl this. cbn [forallb tested]. unfold matches at 1 3.
  simpl fst. simpl snd.
  destruct (component_regexp "test" self key) as [[component r]|]; [|done].
  cbv zeta. destruct (regexp_test r v).
  - rewrite IH by done. unfold logged. simpl. by rewrite <- app_assoc.
  - done.
Qed.

Lemma tested_first_failure self before entry after :
  forallb (matches self) before = true ->
  matches self entry = false ->
  forallb (matches self) (before ++ entry :: after) = false /\
  tested self (before ++ entry :: after) = before ++ [entry].
Proof.
  intros Hbefore Hentry. induction before as [|e before IH]; simpl.
  { by rewrite Hentry. }
  simpl in Hbefore. apply andb_true_iff in Hbefore as [He Hbefore].
  rewrite He. simpl. destruct (IH Hbefore) as [-> ->]. done.
Qed.

(** C7.  For a constructed pattern and an input that resolves, [test]
    returns [true] exactly when the regexp of each of the eight components
    matches the value resolved for it, and [false] otherwise.  The regexps
    are run in the order of the resolved values and only up to the first
    that does not match: then [test] returns [false] and no later component
    has been tested. *)
Theorem test_matches_all_components (self : Receiver) (args : list value)
    (prefix : string) (input baseURL : value)
    (components : object Component) (values : object jsstring) (inputs : list value) :
  constructed self ->
  components_property self = Some components ->
  eight_components components ->
  convert_arguments prefix args = Return (input, baseURL) ->
  urlpatternProcessMatchInput input baseURL = Return (Some (values, inputs)) ->
  eight_components values ->
  outcome (test args) self = Return (forallb (matches self) values) /\
  (outcome (test args) self = Return true <->
     forall key, key ∈ component_keys ->
       exists component r v,
         object_get components key = Some component /\
         regexp component = Some r /\
         object_get values key = Some v /\
         is_Some (regexp_exec r v)) /\
  calls (test args) self =
    call_urlpatternProcessMatchInput input baseURL :: (testing <$> tested self values) /\
  (forall before entry after,
     values = before ++ entry :: after ->
     forallb (matches self) before = true ->
     matches self entry = false ->
     outcome (test args) self = Return false /\
     tested self values = before ++ [entry]).
Proof.
  intros Hself Hcomponents Hc8 Hconvert Hresolve Hv8.
  assert (Hreach : forall key, key ∈ component_keys ->
    exists component r,
      object_get components key = Some component /\ regexp component = Some r /\
      forall method, component_regexp method self key = Return (component, r)).
  { intros key Hkey. apply constructed_component_regexp; [done..|].
    unfold eight_components in Hc8. by rewrite Hc8. }
  assert (Hrun : test args (World self []) =
    (Return (forallb (matches self) values),
     World self (call_urlpatternProcessMatchInput input baseURL ::
                   (testing <$> tested self values)))).
  { rewrite test_unfold. simpl this. rewrite (constructed_branded self Hself).
    rewrite (convert_arguments_any _ "Failed to execute 'test' on 'URLPattern'" _ _ Hconvert).
    cbv zeta. rewrite Hresolve. rewrite test_loop_run; [done|].
    apply Forall_forall. intros [key v] Hin. simpl.
    destruct (Hreach key) as (component & r & _ & _ & ->); [|done].
    unfold eight_components in Hv8. rewrite <- Hv8.
    apply list_elem_of_fmap. by exists (key, v). }
  assert (Houtcome : outcome (test args) self = Return (forallb (matches self) values)).
  { unfold outcome, run. by rewrite Hrun. }
  split; [done|]. split; [|split].
  - rewrite Houtcome. pose proof (eight_components_NoDup values Hv8) as Hnodup. split.
    + intros [= Hall] key Hkey.
      assert (Hin : key ∈ values.*1).
      { unfold eight_components in Hv8. by rewrite Hv8. }
      apply list_elem_of_fmap in Hin as ([key' v] & -> & Hin). simpl in *.
      destruct (Hreach key' Hkey) as (component & r & Hget & Hregexp & Hcr).
      exists component, r, v. split; [done|]. split; [done|].
      split; [by apply object_get_elem_of|].
      rewrite forallb_forall in Hall. specialize (Hall (key', v)).
      unfold matches in Hall. simpl in Hall. rewrite Hcr in Hall.
      unfold regexp_test in Hall. eapply bool_decide_eq_true_1, Hall.
      by apply list_elem_of_In.
    + intros Hall. f_equal. apply forallb_forall. intros [key v] Hin.
      apply list_elem_of_In in Hin.
      assert (Hkey : key ∈ component_keys).
      { unfold eight_components in Hv8. rewrite <- Hv8.
        apply list_elem_of_fmap. by exists (key, v). }
      destruct (Hall key Hkey) as (component & r & v' & Hget & Hregexp & Hv & Hmatch).
      rewrite (object_get_elem_of values key v Hnodup Hin) in Hv. injection Hv as <-.
      destruct (Hreach key Hkey) as (component' & r' & Hget' & Hregexp' & Hcr).
      rewrite Hget in Hget'. injection Hget' as <-.
      rewrite Hregexp in Hregexp'. injection Hregexp' as <-.
      unfold matches. simpl. rewrite Hcr. unfold regexp_test.
      by apply bool_decide_eq_true_2.
  - unfold calls, run. by rewrite Hrun.
  - intros before entry after -> Hbefore Hentry.
    destruct (tested_first_failure self before entry after Hbefore Hentry) as [Hall Htested].
    by rewrite Houtcome, Hall.
Qed.

(** ** The result of [exec] *)

Lemma exec_loop_returns values :
  forall result w r w',
    exec_loop values result w = (Return (Some r), w') ->
    (forall key, key ∉ values.*1 -> r !! key = result !! key) /\
    (NoDup values.*1 ->
     forall key v, (key, v) ∈ values ->
       exists component rx match_,
         component_regexp "exec" (this w) key = Return (component, rx) /\
         regexp_exec rx v = Some match_ /\
         r !! key = Some (component_property
           {| input := v;
              groups := fromEntries (groupEntries (groupNameList component) match_) |})).
Proof.
  induction values as [|[key v] rest IH]; intros result w r w'.
  { simpl. intros [= <- _]. split; [done|]. intros _ key v H. by apply elem_of_nil in H. }
  rewrite exec_loop_unfold.
  destruct (component_regexp "exec" (this w) key) as [[component rx]|] eqn:Hcr; [|done].
  cbv zeta. destruct (regexp_exec rx v) as [match_|] eqn:Hexec; [|done].
  intros Hloop. apply IH in Hloop as [Hother Hthese]. simpl this in Hthese. split.
  - intros key' Hnotin. rewrite fmap_cons in Hnotin. apply not_elem_of_cons in Hnotin as [Hne Hnotin].
    rewrite (Hother key' Hnotin). by rewrite lookup_insert_ne.
  - rewrite fmap_cons. intros Hnodup key' v' Hin.
    apply NoDup_cons in Hnodup as [Hkey Hnodup].
    apply elem_of_cons in Hin as [[= -> ->]|Hin].
    + exists component, rx, match_. split; [done|]. split; [done|].
      rewrite (Hother key Hkey). by rewrite lookup_insert_eq.
    + by apply Hthese.
Qed.



Lemma fromEntries_lookup (entries : list (jsstring * jsstring)) :
  forall (o : gmap jsstring jsstring),
    (forall key, key ∉ entries.*1 ->
       foldl (fun o e => <[e.1 := e.2]> o) o entries !! key = o !! key) /\
    (NoDup entries.*1 ->
     forall key v, (key, v) ∈ entries ->
       foldl (fun o e => <[e.1 := e.2]> o) o entries !! key = Some v).
Proof.
  induction entries as [|[k x] rest IH]; intros o.
  { split; [done|]. intros _ key v H. by apply elem_of_nil in H. }
  simpl. destruct (IH (<[k := x]> o)) as [Hother Hthese]. split.
  - intros key Hnotin. apply not_elem_of_cons in Hnotin as [Hne Hnotin].
    rewrite (Hother key Hnotin). by rewrite lookup_insert_ne.
  - intros Hnodup key v Hin. apply NoDup_cons in Hnodup as [Hk Hnodup].
    apply elem_of_cons in Hin as [[= -> ->]|Hin].
    + rewrite (Hother k Hk). by rewrite lookup_insert_eq.
    + by apply Hthese.
Qed.

Lemma imap_keys {A B} (names : list A) :
  forall g : nat -> B, (imap (fun i name => (name, g i)) names).*1 = names.
Proof.
  induction names as [|name names IH]; intros g; [done|].
  cbn [imap]. rewrite fmap_cons. simpl. f_equal. apply (IH (g ∘ S)).
Qed.

Lemma groupEntries_keys names match_ : (groupEntries names match_).*1 = names.
Proof.
  apply (imap_keys names (fun i => default [] (mjoin (match_ !! (i + 1)%nat)))).
Qed.

Lemma groups_lookup names match_ :
  (forall name, name ∉ names -> fromEntries (groupEntries names match_) !! name = None) /\
  (NoDup names ->
   forall i name, names !! i = Some name ->
     fromEntries (groupEntries names match_) !! name = Some (capture match_ (S i))).
Proof.
  unfold fromEntries.
  destruct (fromEntries_lookup (groupEntries names match_) ∅) as [Hother Hthese].
  rewrite groupEntries_keys in Hother, Hthese. split.
  - intros name Hnotin. by rewrite Hother.
  - intros Hnodup i name Hi. apply Hthese; [done|].
    unfold groupEntries. apply list_elem_of_lookup. exists i.
    rewrite list_lookup_imap, Hi. simpl. unfold capture.
    by replace (i + 1)%nat with (S i) by lia.
Qed.

(** C6.  For every successful [exec] call and every component of the
    resolved values, the result holds under the component's key the pair of
    [input], the value resolved for the component, and [groups], the mapping
    that has exactly the names of the component's [groupNameList] and sends
    the name at index [i] to capture [i + 1] of the regexp's match -- the
    empty string when that capture did not take part.  (Names are unique in
    a component; with a repeated name the mapping could keep one capture
    only.) *)
Theorem exec_component_results (self : Receiver) (args : list value)
    (prefix : string) (input baseURL : value)
    (values : object jsstring) (inputs : list value)
    (result : gmap string result_property) :
  convert_arguments prefix args = Return (input, baseURL) ->
  urlpatternProcessMatchInput input baseURL = Return (Some (values, inputs)) ->
  NoDup values.*1 ->
  outcome (exec args) self = Return (Some result) ->
  forall key v, (key, v) ∈ values ->
    exists component r match_ groups,
      component_regexp "exec" self key = Return (component, r) /\
      regexp_exec r v = Some match_ /\
      result !! key = Some (component_property {| input := v; groups := groups |}) /\
      (forall name, name ∉ groupNameList component -> groups !! name = None) /\
      (NoDup (groupNameList component) ->
       forall i name, groupNameList component !! i = Some name ->
         groups !! name = Some (capture match_ (S i))).
Proof.
  intros Hconvert Hresolve Hnodup. unfold outcome, run. rewrite exec_unfold. simpl this.
  destruct (assertBranded self); [|done].
  rewrite (convert_arguments_any _ "Failed to execute 'exec' on 'URLPattern'" _ _ Hconvert).
  cbv zeta. rewrite Hresolve.
  destruct (exec_loop _ _ _) as [c w'] eqn:Hloop. simpl. intros -> key v Hin.
  apply exec_loop_returns in Hloop as [_ Hthese]. simpl this in Hthese.
  destruct (Hthese Hnodup key v Hin) as (component & r & match_ & Hcr & Hexec & Hresult).
  exists component, r, match_. eexists. split; [done|]. split; [done|]. split; [done|].
  apply groups_lookup.
Qed.

(** ** The dictionary converter *)

Lemma convert_members_lookup name typeV esDict opts allMembers :
  forall idlDict result,
    String.eqb typeV "Undefined" || String.eqb typeV "Null" = false ->
    NoDup (key <$> allMembers) ->
    convert_members name typeV esDict opts allMembers idlDict = Return result ->
    (forall k, k ∉ key <$> allMembers -> result !! k = idlDict !! k) /\
    (forall member, member ∈ allMembers ->
       if is_undefined (get_property esDict (key member))
       then result !! key member = idlDict !! key member
       else exists opts' idlMemberValue,
              prefix opts' = prefix opts /\
              converter member (get_property esDict (key member)) opts'
                = Return idlMemberValue /\
              result !! key member = Some idlMemberValue).
Proof.
  induction allMembers as [|member rest IH]; intros idlDict result HtypeV Hnodup.
  { simpl. intros [= <-]. split; [done|]. intros member H. by apply elem_of_nil in H. }
  rewrite fmap_cons in Hnodup. apply NoDup_cons in Hnodup as [Hkey Hnodup].
  simpl. rewrite HtypeV.
  destruct (is_undefined (get_property esDict (key member))) eqn:Hundefined; simpl.
  - destruct (required member); [done|]. intros Hrest.
    destruct (IH _ _ HtypeV Hnodup Hrest) as [Hother Hthese]. split.
    + intros k Hk. apply not_elem_of_cons in Hk as [_ Hk]. by apply Hother.
    + intros member' Hin. apply elem_of_cons in Hin as [->|Hin]; [|by apply Hthese].
      rewrite Hundefined. by apply Hother.
  - destruct (converter member _ _) as [idlMemberValue|] eqn:Hconverter; [|done].
    simpl. intros Hrest.
    destruct (IH _ _ HtypeV Hnodup Hrest) as [Hother Hthese]. split.
    + intros k Hk. apply not_elem_of_cons in Hk as [Hne Hk].
      rewrite (Hother k Hk). by rewrite lookup_insert_ne.
    + intros member' Hin. apply elem_of_cons in Hin as [->|Hin].
      2:{ specialize (Hthese member' Hin).
          destruct (is_undefined (get_property esDict (key member'))); [|done].
          rewrite Hthese. apply lookup_insert_ne. intros Heq. apply Hkey.
          rewrite Heq. apply list_elem_of_fmap. by exists member'. }
      rewrite Hundefined.
      refine (ex_intro _ _ (ex_intro _ idlMemberValue (conj _ (conj Hconverter _)))).
      * done.
      * rewrite (Hother _ Hkey). by rewrite lookup_insert_eq.
Qed.

Lemma createDictionaryConverter_object name dictionaries V opts :
  type V = Return "Object" ->
  is_undefined V || is_null V = false ->
  createDictionaryConverter name dictionaries V opts =
    (idlDict ← convert_members name "Object" V opts
                 (sort compare_members (concat dictionaries)) ∅;
     Return (VObject idlDict)).
Proof.
  intros Htype Hobject. unfold createDictionaryConverter. cbv zeta. rewrite Htype, Hobject.
  reflexivity.
Qed.


(** ** The getters *)

(** X1.  Each of the eight getters of a constructed pattern returns the
    pattern string of its component, as the pattern compiler returned it. *)
Theorem getters_return_pattern_strings (args : list value) (input baseURL : value)
    (components : object Component) (self : Receiver) (tr : list event) :
  convert_arguments "Failed to construct 'URLPattern'" args = Return (input, baseURL) ->
  urlpatternParse input baseURL = Return components ->
  eight_components components ->
  new_URLPattern args = (Return self, tr) ->
  forall key, key ∈ component_keys ->
    exists component,
      (key, component) ∈ components /\
      outcome (pattern_getter key) self = Return (patternString component).
Proof.
  intros Hconvert Hparse Height Hnew key Hkey.
  destruct (new_URLPattern_returns _ _ _ Hnew)
    as (input' & baseURL' & components0 & components' & Hc & Hp & Hall & -> & _).
  rewrite Hconvert in Hc. injection Hc as <- <-.
  rewrite Hparse in Hp. injection Hp as <-.
  destruct (compiled_object_get components components' key Hall)
    as (before & after & r & Hin & Hget & _ & ->).
  { unfold eight_components in Height. by rewrite Height. }
  exists before. split; [done|].
  unfold outcome, run, pattern_getter, mbind, M_bind, get_this, lift. simpl.
  by rewrite Hget.
Qed.

(** * Further properties *)

(** ** More on the USVString converter *)

Lemma isWellFormed_app (a b : jsstring) :
  isWellFormed a = true -> isWellFormed b = true -> isWellFormed (a ++ b) = true.
Proof.
  induction a as [|c rest IH1 IH2] using surrogate_induction; [done|].
  simpl. destruct (high_surrogate c).
  - destruct rest as [|d rest']; [done|]. simpl.
    intros [Hd Hrest]%andb_prop Hb. rewrite Hd. simpl. by eapply IH2.
  - intros [Hc Hrest]%andb_prop Hb. rewrite Hc. simpl. by apply IH1.
Qed.

Lemma fromCodePoint_isWellFormed cp u :
  surrogate cp = false -> fromCodePoint cp = Return u -> isWellFormed u = true.
Proof.
  unfold fromCodePoint, surrogate. intros Hcp.
  destruct ((0 <=? cp) && (cp <=? 0xFFFF)) eqn:E1.
  - intros [= <-]. cbn [isWellFormed]. unfold high_surrogate, low_surrogate.
    destruct ((0xD800 <=? cp) && (cp <=? 0xDBFF)) eqn:E2; [lia|].
    destruct ((0xDC00 <=? cp) && (cp <=? 0xDFFF)) eqn:E3; [lia|]. done.
  - destruct ((0x10000 <=? cp) && (cp <=? 0x10FFFF)) eqn:E2; [|done].
    intros [= <-].
    assert (Hhigh : 0 <= Z.shiftr (cp - 0x10000) 10 < 1024).
    { rewrite Z.shiftr_div_pow2 by lia. change (2 ^ 10) with 1024. split.
      - apply Z.div_pos; lia.
      - apply Z.div_lt_upper_bound; lia. }
    assert (Hlow : 0 <= Z.land (cp - 0x10000) 0x3FF < 1024).
    { change 0x3FF with (Z.ones 10). rewrite Z.land_ones by lia.
      change (2 ^ 10) with 1024. apply Z.mod_pos_bound. lia. }
    cbn [isWellFormed]. unfold high_surrogate, low_surrogate.
    destruct ((0xD800 <=? _) && (_ <=? 0xDBFF)) eqn:E3; [|lia].
    destruct ((0xDC00 <=? _) && (_ <=? 0xDFFF)) eqn:E4; [done|lia].
Qed.

(** Whatever the loop is started on, what it has appended when it returns is
    well-formed. *)
Lemma USVString_loop_isWellFormed (k : nat) :
  forall (Str : jsstring) n i U U',
    (Z.to_nat (n - i) <= k)%nat ->
    isWellFormed U = true ->
    USVString_loop Str n i U = Return U' ->
    isWellFormed U' = true.
Proof.
  induction k as [|k IH]; intros Str n i U U' Hk HU.
  { rewrite USVString_loop_exit by lia. by intros [= <-]. }
  destruct (decide (i < n)) as [Hlt|Hge];
    [|rewrite USVString_loop_exit by lia; by intros [= <-]].
  rewrite USVString_loop_step by done. cbv zeta.
  assert (Hnext : forall j cp,
    j = i + 1 \/ j = i + 1 + 1 -> surrogate cp = false ->
    (u ← fromCodePoint cp; USVString_loop Str n j (U ++ u)) = Return U' ->
    isWellFormed U' = true).
  { intros j cp Hj Hcp. destruct (fromCodePoint cp) as [u|] eqn:Hu; [|done].
    intros Hloop. eapply IH; [| |exact Hloop]; [lia|].
    apply isWellFormed_app; [done|]. by eapply fromCodePoint_isWellFormed. }
  set (c := charCodeAt Str i). set (d := charCodeAt Str (i + 1)).
  destruct ((c <? 0xd800) || (c >? 0xdfff)) eqn:E1.
  { apply Hnext; [lia|]. unfold surrogate. lia. }
  destruct ((0xdc00 <=? c) && (c <=? 0xdfff)) eqn:E2.
  { apply Hnext; [lia|done]. }
  destruct (i =? n - 1).
  { apply Hnext; [lia|done]. }
  destruct ((0xdc00 <=? d) && (d <=? 0xdfff)) eqn:E4.
  - destruct (fromCodePoint_pair c d) as [Heq _];
      [unfold high_surrogate; lia|unfold low_surrogate; lia|].
    rewrite Heq. apply Hnext; [lia|].
    apply pair_not_surrogate; [unfold high_surrogate; lia|unfold low_surrogate; lia].
  - apply Hnext; [lia|done].
Qed.

(** X3.  Whatever value the USVString converter is given and whatever the
    host does, when it returns it returns a string, and that string is
    well-formed UTF-16: it has no unpaired surrogate. *)
Theorem USVString_output_well_formed (V : value) (opts : Opts) (r : value) :
  converters_USVString V opts = Return r ->
  exists U, r = VString U /\ isWellFormed U = true.
Proof.
  unfold converters_USVString.
  destruct (converters_DOMString V opts) as [Str|]; [|done]. simpl.
  destruct (USVString_loop _ _ _ _) as [U|] eqn:Hloop; [|done]. simpl.
  intros [= <-]. exists U. split; [done|].
  by eapply (USVString_loop_isWellFormed _ Str _ 0 [] U (le_n _) eq_refl Hloop).
Qed.

Lemma converters_USVString_toWellFormed (Str : jsstring) (opts : Opts) :
  Forall code_unit Str ->
  converters_USVString (VString Str) opts = Return (VString (toWellFormed Str)).
Proof.
  intros Hcu. rewrite converters_USVString_string.
  pose proof (USVString_loop_toWellFormed (length Str) Str [] [] (le_n _) Hcu) as H.
  rewrite !app_nil_l in H. change (Z.of_nat (length [])) with 0 in H.
  by rewrite H.
Qed.

Lemma toWellFormed_code_unit Str : Forall code_unit Str -> Forall code_unit (toWellFormed Str).
Proof.
  assert (Hr : code_unit 0xFFFD) by (unfold code_unit; lia).
  induction Str as [|c rest IH1 IH2] using surrogate_induction; [done|].
  intros [Hc Hrest]%Forall_cons. rewrite toWellFormed_cons.
  destruct (high_surrogate c).
  - destruct rest as [|d rest']; [by repeat constructor|].
    destruct (low_surrogate d).
    + apply Forall_cons in Hrest as [Hd Hrest'].
      repeat (apply Forall_cons; split; [done|]). by eapply IH2.
    + apply Forall_cons; split; [done|]. by apply IH1.
  - destruct (low_surrogate c); apply Forall_cons; split; try done; by apply IH1.
Qed.

Lemma length_toWellFormed Str : length (toWellFormed Str) = length Str.
Proof.
  induction Str as [|c rest IH1 IH2] using surrogate_induction; [done|].
  rewrite toWellFormed_cons. destruct (high_surrogate c).
  - destruct rest as [|d rest']; [done|].
    destruct (low_surrogate d); simpl length.
    + f_equal. f_equal. by eapply IH2.
    + f_equal. apply IH1.
  - destruct (low_surrogate c); simpl length; f_equal; apply IH1.
Qed.

Lemma toWellFormed_lookup Str :
  forall (i : nat) c, Str !! i = Some c ->
    toWellFormed Str !! i = Some c \/
    (surrogate c = true /\ toWellFormed Str !! i = Some 0xFFFD).
Proof.
  induction Str as [|c rest IH1 IH2] using surrogate_induction; [done|].
  intros i x Hi. rewrite toWellFormed_cons.
  destruct (high_surrogate c) eqn:Hc.
  - destruct rest as [|d rest'].
    { destruct i; [|done]. injection Hi as <-. right.
      split; [by apply high_surrogate_surrogate|done]. }
    destruct (low_surrogate d) eqn:Hd.
    + destruct i as [|[|i]]; [left; exact Hi|left; exact Hi|].
      by eapply (IH2 d rest' eq_refl i x).
    + destruct i as [|i]; [|by apply (IH1 i x)].
      injection Hi as <-. right. split; [by apply high_surrogate_surrogate|done].
  - destruct (low_surrogate c) eqn:Hl.
    + destruct i as [|i]; [|by apply (IH1 i x)].
      injection Hi as <-. right. split; [by apply low_surrogate_surrogate|done].
    + destruct i as [|i]; [left; exact Hi|by apply (IH1 i x)].
Qed.

(** X4.  The USVString converter is idempotent on strings: converting what
    it returned gives the same string again, whatever [opts] it is given. *)
Theorem USVString_idempotent (Str : jsstring) (opts opts' : Opts) (r : value) :
  Forall code_unit Str ->
  converters_USVString (VString Str) opts = Return r ->
  converters_USVString r opts' = Return r.
Proof.
  intros Hcu. rewrite converters_USVString_toWellFormed by done. intros [= <-].
  rewrite converters_USVString_toWellFormed by by apply toWellFormed_code_unit.
  f_equal. f_equal. apply toWellFormed_id, toWellFormed_isWellFormed.
Qed.

(** X5.  The USVString converter rewrites a string in place: the result has
    the length of the input and consists of 16-bit code units, and at every
    index it has the code unit of the input, or U+FFFD where the input has
    a surrogate; a code unit that is no surrogate is never changed. *)
Theorem USVString_in_place (Str U : jsstring) (opts : Opts) :
  Forall code_unit Str ->
  converters_USVString (VString Str) opts = Return (VString U) ->
  length U = length Str /\
  Forall code_unit U /\
  (forall (i : nat) c, Str !! i = Some c ->
     U !! i = Some c \/ (surrogate c = true /\ U !! i = Some 0xFFFD)).
Proof.
  intros Hcu. rewrite converters_USVString_toWellFormed by done. intros [= <-].
  split; [apply length_toWellFormed|].
  split; [by apply toWellFormed_code_unit|apply toWellFormed_lookup].
Qed.

Lemma js_code_unit (s : string) : Forall code_unit (js s).
Proof.
  unfold js. apply Forall_fmap, Forall_forall. intros a _. unfold code_unit, compose.
  pose proof (Ascii.N_ascii_bounded a). lia.
Qed.

Lemma converters_DOMString_code_units (V : value) (opts : Opts) (Str : jsstring) :
  (forall n, Forall code_unit (Number_toString n)) ->
  (forall props Str, Object_toString props = Return Str -> Forall code_unit Str) ->
  code_units V ->
  converters_DOMString V opts = Return Str ->
  Forall code_unit Str.
Proof.
  intros Hnumber Hobject HV. unfold converters_DOMString.
  destruct (treatNullAsEmptyString opts && is_null V); [by intros [= <-]|].
  destruct V as [| |[|]| | | | |]; simpl; try (intros [= <-]; apply js_code_unit); try done.
  - intros [= <-]. apply Hnumber.
  - by intros [= <-].
  - apply Hobject.
Qed.

(** X6.  On any value, the USVString converter is the DOMString converter
    followed by the replacement of unpaired surrogates; it throws only what
    the DOMString converter throws: the exception of [makeException] for a
    symbol, or what the conversion of an object to a string threw. *)
Theorem USVString_after_DOMString (V : value) (opts : Opts) :
  (forall n, Forall code_unit (Number_toString n)) ->
  (forall props Str, Object_toString props = Return Str -> Forall code_unit Str) ->
  code_units V ->
  converters_USVString V opts =
    (Str ← converters_DOMString V opts; Return (VString (toWellFormed Str))) /\
  (forall e, converters_USVString V opts = Throw e ->
     (exists s, V = VSymbol s /\
        e = makeException TypeError "is a symbol, which cannot be converted to a string"
              opts) \/
     (exists props, V = VObject props /\ Object_toString props = Throw e)).
Proof.
  intros Hnumber Hobject HV.
  assert (Heq : converters_USVString V opts =
    (Str ← converters_DOMString V opts; Return (VString (toWellFormed Str)))).
  { unfold converters_USVString.
    destruct (converters_DOMString V opts) as [Str|] eqn:HStr; [|done]. simpl.
    pose proof (converters_DOMString_code_units V opts Str Hnumber Hobject HV HStr) as Hcu.
    pose proof (USVString_loop_toWellFormed (length Str) Str [] [] (le_n _) Hcu) as H.
    rewrite !app_nil_l in H. change (Z.of_nat (length [])) with 0 in H. by rewrite H. }
  split; [done|]. rewrite Heq. clear Heq. unfold converters_DOMString.
  destruct (treatNullAsEmptyString opts && is_null V); [done|].
  destruct V as [| |[|]| | | |s|props]; simpl; try done.
  - intros e [= <-]. left. by exists s.
  - intros e He. right. exists props. split; [done|].
    destruct (Object_toString props) as [Str|e']; simpl in He; [done|].
    by injection He as ->.
Qed.

(** ** More on the dictionary converter *)

Lemma convert_members_cons name typeV esDict opts member rest idlDict :
  convert_members name typeV esDict opts (member :: rest) idlDict =
    let esMemberValue :=
      if String.eqb typeV "Undefined" || String.eqb typeV "Null"
      then VUndefined else get_property esDict (key member) in
    if negb (is_undefined esMemberValue) then
      idlMemberValue ← converter member esMemberValue (member_opts name (key member) opts);
      convert_members name typeV esDict opts rest (<[key member := idlMemberValue]> idlDict)
    else if required member then Throw (missing_member name (key member) opts)
    else convert_members name typeV esDict opts rest idlDict.
Proof. reflexivity. Qed.

(** When the loop throws, it throws at the first member that is missing
    though required, or whose converter throws; the members before it were
    converted, or left out because they were [undefined]. *)
Lemma convert_members_throws name typeV esDict opts allMembers :
  forall idlDict e,
    String.eqb typeV "Undefined" || String.eqb typeV "Null" = false ->
    convert_members name typeV esDict opts allMembers idlDict = Throw e ->
    exists before member after,
      allMembers = before ++ member :: after /\
      Forall (fun m =>
                if is_undefined (get_property esDict (key m)) then required m = false
                else returns (converter m (get_property esDict (key m))
                                (member_opts name (key m) opts)) = true) before /\
      (if is_undefined (get_property esDict (key member))
       then required member = true /\ e = missing_member name (key member) opts
       else converter member (get_property esDict (key member))
              (member_opts name (key member) opts) = Throw e).
Proof.
  induction allMembers as [|member rest IH]; intros idlDict e HtypeV; [done|].
  rewrite convert_members_cons. cbv zeta. rewrite HtypeV.
  destruct (is_undefined (get_property esDict (key member))) eqn:Hundefined; simpl negb; cbv iota.
  - destruct (required member) eqn:Hrequired.
    + intros [= <-]. exists [], member, rest. rewrite Hundefined. by repeat split.
    + intros Hrest. destruct (IH _ _ HtypeV Hrest) as (before & m & after & -> & Hb & Hm).
      exists (member :: before), m, after. split; [done|]. split; [|done].
      apply Forall_cons. split; [|done]. by rewrite Hundefined.
  - destruct (converter member _ _) as [idlMemberValue|e'] eqn:Hconverter.
    + simpl. intros Hrest.
      destruct (IH _ _ HtypeV Hrest) as (before & m & after & -> & Hb & Hm).
      exists (member :: before), m, after. split; [done|]. split; [|done].
      apply Forall_cons. split; [|done]. by rewrite Hundefined, Hconverter.
    + simpl. intros [= <-]. exists [], member, rest. rewrite Hundefined. by repeat split.
Qed.


Lemma URLPatternInit_members :
  let allMembers := sort compare_members
    [ {| key := "protocol"; converter := converters_USVString; required := false |};
      {| key := "username"; converter := converters_USVString; required := false |};
      {| key := "password"; converter := converters_USVString; required := false |};
      {| key := "hostname"; converter := converters_USVString; required := false |};
      {| key := "port"; converter := converters_USVString; required := false |};
      {| key := "pathname"; converter := converters_USVString; required := false |};
      {| key := "search"; converter := converters_USVString; required := false |};
      {| key := "hash"; converter := converters_USVString; required := false |};
      {| key := "baseURL"; converter := converters_USVString; required := false |} ] in
  allMembers =
    (fun k => {| key := k; converter := converters_USVString; required := false |})
      <$> URLPatternInit_keys.
Proof. reflexivity. Qed.


(** *** The order of the members *)

Lemma string_compare_refl (s : string) : String.compare s s = Eq.
Proof.
  pose proof (String.compare_antisym s s) as H.
  by destruct (String.compare s s).
Qed.

Lemma string_compare_trans (a : string) :
  forall b c, String.compare a b = Lt -> String.compare b c = Lt -> String.compare a c = Lt.
Proof.
  induction a as [|x a IH]; intros [|y b] [|z c]; simpl; try done.
  unfold Ascii.compare.
  destruct (N.compare_spec (Ascii.N_of_ascii x) (Ascii.N_of_ascii y)) as [Hxy|Hxy|Hxy];
    destruct (N.compare_spec (Ascii.N_of_ascii y) (Ascii.N_of_ascii z)) as [Hyz|Hyz|Hyz];
    try done;
    destruct (N.compare_spec (Ascii.N_of_ascii x) (Ascii.N_of_ascii z)) as [Hxz|Hxz|Hxz];
    try done; try lia.
  apply IH.
Qed.


(** The comparator puts [a] before [b] exactly when the key of [a] is less
    than the key of [b]. *)
Lemma compare_members_lt (a b : member) :
  (compare_members a b <? 0) = String.ltb (key a) (key b).
Proof.
  unfold compare_members. destruct (String.eqb_spec (key a) (key b)) as [->|_].
  - unfold String.ltb. by rewrite string_compare_refl.
  - by destruct (String.ltb (key a) (key b)).
Qed.

Lemma sort_insert_Permutation {A} (cmp : A -> A -> Z) (x : A) (l : list A) :
  sort_insert cmp x l ≡ₚ x :: l.
Proof.
  induction l as [|y l IH]; simpl; [done|].
  destruct (cmp x y <? 0); [done|]. rewrite IH. apply Permutation_swap.
Qed.

Lemma sort_Permutation {A} (cmp : A -> A -> Z) (l : list A) : sort cmp l ≡ₚ l.
Proof.
  unfold sort.
  assert (H : forall sorted,
    foldl (fun sorted x => sort_insert cmp x sorted) sorted l ≡ₚ sorted ++ l).
  { induction l as [|x l IH]; intros sorted; simpl; [by rewrite app_nil_r|].
    rewrite IH, sort_insert_Permutation. by rewrite <- Permutation_middle. }
  apply H.
Qed.

Lemma sort_insert_sorted (x : member) (l : list member) :
  StronglySorted key_le l -> StronglySorted key_le (sort_insert compare_members x l).
Proof.
  induction 1 as [|y l Hl IH Hy]; simpl; [by repeat constructor|].
  rewrite compare_members_lt. destruct (String.ltb (key x) (key y)) eqn:Hxy.
  - constructor; [by constructor|]. constructor.
    + unfold key_le, String.ltb in *. rewrite String.compare_antisym.
      by destruct (String.compare (key x) (key y)).
    + eapply Forall_impl; [exact Hy|]. intros z Hz. unfold key_le in *.
      destruct (String.ltb (key z) (key x)) eqn:Hzx; [|done].
      rewrite <- Hz. unfold String.ltb in *.
      destruct (String.compare (key z) (key x)) eqn:Hzx'; try done.
      destruct (String.compare (key x) (key y)) eqn:Hxy'; try done.
      by rewrite (string_compare_trans _ _ _ Hzx' Hxy').
  - constructor; [done|]. rewrite sort_insert_Permutation. by constructor.
Qed.

Lemma sort_sorted (l : list member) : StronglySorted key_le (sort compare_members l).
Proof.
  unfold sort.
  assert (H : forall sorted,
    StronglySorted key_le sorted ->
    StronglySorted key_le
      (foldl (fun sorted x => sort_insert compare_members x sorted) sorted l)).
  { induction l as [|x l IH]; intros sorted Hsorted; simpl; [done|].
    by apply IH, sort_insert_sorted. }
  apply H. constructor.
Qed.




(** X8.  The member list of a dictionary converter has the members of all
    its dictionaries, each as often as it is declared, in ascending order of
    their keys. *)
Theorem members_sorted_by_key (dictionaries : list (list member)) :
  let allMembers := sort compare_members (concat dictionaries) in
  allMembers ≡ₚ concat dictionaries /\ StronglySorted key_le allMembers.
Proof. split; [apply sort_Permutation|apply sort_sorted]. Qed.






(** ** What the WebAssembly module is handed *)

Lemma converters_USVString_value (V : value) (opts : Opts) (r : value) :
  converters_USVString V opts = Return r -> USVString_value r.
Proof.
  unfold converters_USVString.
  destruct (converters_DOMString V opts) as [Str|]; [|done]. simpl.
  destruct (USVString_loop _ _ _ _) as [U|] eqn:Hloop; [|done]. simpl.
  intros [= <-]. exists U. split; [done|].
  by eapply (USVString_loop_isWellFormed _ Str _ 0 [] U (le_n _) eq_refl Hloop).
Qed.

(** The loop keeps what holds of every entry of the dictionary, when every
    member converter establishes it. *)
Lemma convert_members_invariant (P : string -> value -> Prop) name typeV esDict opts
    allMembers :
  Forall (fun m => forall o r,
            converter m (get_property esDict (key m)) o = Return r -> P (key m) r)
    allMembers ->
  forall idlDict result,
    (forall k x, idlDict !! k = Some x -> P k x) ->
    convert_members name typeV esDict opts allMembers idlDict = Return result ->
    forall k x, result !! k = Some x -> P k x.
Proof.
  induction 1 as [|member rest Hmember _ IH]; intros idlDict result HidlDict.
  { by intros [= <-]. }
  rewrite convert_members_cons. cbv zeta.
  destruct (String.eqb typeV "Undefined" || String.eqb typeV "Null").
  { simpl. destruct (required member); [done|]. by apply IH. }
  destruct (negb (is_undefined _)).
  - destruct (converter member _ _) as [idlMemberValue|] eqn:Hconverter; [|done].
    simpl. apply IH. intros k x. destruct (decide (key member = k)) as [<-|Hne].
    + rewrite lookup_insert_eq. intros [= <-]. by eapply Hmember.
    + rewrite lookup_insert_ne by done. apply HidlDict.
  - destruct (required member); [done|]. by apply IH.
Qed.

Lemma converters_URLPatternInit_value (V : value) (opts : Opts) (r : value) :
  converters_URLPatternInit V opts = Return r -> URLPatternInit_value r.
Proof.
  unfold converters_URLPatternInit, createDictionaryConverter. cbv zeta.
  change (concat [?l]) with l. rewrite URLPatternInit_members.
  destruct (type V) as [typeV|]; [|done]. unfold mbind at 1, completion_bind at 1.
  destruct (negb _); [done|].
  destruct (_ && _).
  { intros [= <-]. exists ∅. split; [done|]. intros k x. by rewrite lookup_empty. }
  destruct (convert_members _ _ _ _ _ ∅) as [d|] eqn:Hmembers; [|done].
  simpl. intros [= <-]. exists d. split; [done|]. intros k x.
  eapply (convert_members_invariant
            (fun k x => k ∈ URLPatternInit_keys /\ USVString_value x));
    [|by intros ? ?; rewrite lookup_empty|exact Hmembers].
  apply Forall_fmap, Forall_forall. intros key Hkey o r'. simpl. intros Hr.
  split; [done|]. by eapply converters_USVString_value.
Qed.

Lemma convert_arguments_module_arguments prefix args input baseURL :
  convert_arguments prefix args = Return (input, baseURL) ->
  module_arguments input baseURL.
Proof.
  unfold convert_arguments, mbind, completion_bind.
  destruct (requiredArguments _ _ _); [|done].
  destruct (converters_URLPatternInput _ _) as [input'|] eqn:Hinput; [|done].
  assert (Hi : USVString_value input' \/ URLPatternInit_value input').
  { unfold converters_URLPatternInput in Hinput.
    destruct (String.eqb _ _).
    - right. by eapply converters_URLPatternInit_value.
    - left. by eapply converters_USVString_value. }
  destruct (is_undefined (argument args 1)) eqn:Hundefined; simpl.
  - intros [= <- <-]. split; [done|]. left. by destruct (argument args 1).
  - destruct (converters_USVString _ _) as [baseURL'|] eqn:HbaseURL; [|done].
    intros [= <- <-]. split; [done|]. right. by eapply converters_USVString_value.
Qed.

Lemma test_loop_module_calls values :
  forall w, Forall module_call (trace w) -> Forall module_call (trace (test_loop values w).2).
Proof.
  induction values as [|[key v] rest IH]; intros w Hw; [done|].
  rewrite test_loop_unfold. destruct (component_regexp _ _ _) as [[component r]|]; [|done].
  cbv zeta.
  assert (Hlogged : Forall module_call (trace (logged w (call_regexp_test key v)))).
  { simpl. apply Forall_app. split; [done|]. by repeat constructor. }
  destruct (regexp_test r v); [by apply IH|done].
Qed.

Lemma exec_loop_module_calls values :
  forall result w,
    Forall module_call (trace w) ->
    Forall module_call (trace (exec_loop values result w).2).
Proof.
  induction values as [|[key v] rest IH]; intros result w Hw; [done|].
  rewrite exec_loop_unfold. destruct (component_regexp _ _ _) as [[component r]|]; [|done].
  cbv zeta.
  assert (Hlogged : Forall module_call (trace (logged w (call_regexp_exec key v)))).
  { simpl. apply Forall_app. split; [done|]. by repeat constructor. }
  destruct (regexp_exec r v); [by apply IH|done].
Qed.

(** X11.  Whatever arguments the constructor, [test] and [exec] are called
    with, what they hand to the WebAssembly module is converted: the input
    is a string without unpaired surrogate or a dictionary that has only
    members of [URLPatternInit], each such a string, and the base URL is
    [undefined] or such a string. *)
Theorem module_calls_converted (args : list value) (self : Receiver) :
  Forall module_call (new_URLPattern args).2 /\
  Forall module_call (calls (test args) self) /\
  Forall module_call (calls (exec args) self).
Proof.
  split; [|split].
  - rewrite new_URLPattern_unfold.
    destruct (convert_arguments _ args) as [[input baseURL]|] eqn:Hconvert; [|done].
    apply convert_arguments_module_arguments in Hconvert.
    destruct (urlpatternParse input baseURL) as [components|];
      [|simpl; constructor; [done|constructor]].
    pose proof (compile_components_run "Failed to construct 'URLPattern'" components
                  (World (with_brand new_object (VSymbol brand))
                     [call_urlpatternParse input baseURL])) as Hrun.
    destruct (compile_components _ _ _) as [[components'|e] w].
    + destruct Hrun as [_ ->]. simpl. constructor; [done|].
      apply Forall_fmap, Forall_forall. by intros.
    + destruct Hrun as (before & key & component & after & e0 & _ & _ & _ & _ & ->).
      simpl. constructor; [done|]. apply Forall_fmap, Forall_forall. by intros.
  - unfold calls, run. rewrite test_unfold. simpl this.
    destruct (assertBranded self); [|done].
    destruct (convert_arguments _ args) as [[input baseURL]|] eqn:Hconvert; [|done].
    apply convert_arguments_module_arguments in Hconvert. cbv zeta.
    assert (Hlogged : Forall module_call
      (trace (logged (World self []) (call_urlpatternProcessMatchInput input baseURL))))
      by (simpl; constructor; [done|constructor]).
    destruct (urlpatternProcessMatchInput input baseURL) as [[[values inputs]|]|];
      [|done|done].
    by apply test_loop_module_calls.
  - unfold calls, run. rewrite exec_unfold. simpl this.
    destruct (assertBranded self); [|done].
    destruct (convert_arguments _ args) as [[input baseURL]|] eqn:Hconvert; [|done].
    apply convert_arguments_module_arguments in Hconvert. cbv zeta.
    assert (Hlogged : Forall module_call
      (trace (logged (World self []) (call_urlpatternProcessMatchInput input baseURL))))
      by (simpl; constructor; [done|constructor]).
    destruct (urlpatternProcessMatchInput input baseURL) as [[[values inputs]|]|];
      [|done|done].
    by apply exec_loop_module_calls.
Qed.

(** ** Arguments of the constructor, [test] and [exec] *)

Lemma convert_arguments_two prefix a b rest :
  convert_arguments prefix (a :: b :: rest) = convert_arguments prefix [a; b].
Proof. reflexivity. Qed.

Lemma convert_arguments_omitted prefix a :
  convert_arguments prefix [a; VUndefined] = convert_arguments prefix [a].
Proof. reflexivity. Qed.

(** X12.  The constructor, [test] and [exec] look at their first two
    arguments only, and a base URL that is passed as [undefined] is a base
    URL that is not passed. *)
Theorem arguments_beyond_two (a b : value) (rest : list value) (w : world) :
  (new_URLPattern (a :: b :: rest) = new_URLPattern [a; b] /\
   test (a :: b :: rest) w = test [a; b] w /\
   exec (a :: b :: rest) w = exec [a; b] w) /\
  (new_URLPattern [a; VUndefined] = new_URLPattern [a] /\
   test [a; VUndefined] w = test [a] w /\
   exec [a; VUndefined] w = exec [a] w).
Proof.
  rewrite !new_URLPattern_unfold, !test_unfold, !exec_unfold.
  by rewrite !convert_arguments_two, !convert_arguments_omitted.
Qed.

(** X13.  Called without an argument on a branded receiver, [test] and
    [exec] throw a TypeError that names the method and says that 1 argument
    is required but only 0 are present; the WebAssembly module is not
    called. *)
Theorem methods_require_an_argument (self : Receiver) (tr : list event) :
  assertBranded self = Return () ->
  test [] (World self tr) =
    (Throw (Exn TypeError
       "Failed to execute 'test' on 'URLPattern': 1 argument required, but only 0 present."),
     World self tr) /\
  exec [] (World self tr) =
    (Throw (Exn TypeError
       "Failed to execute 'exec' on 'URLPattern': 1 argument required, but only 0 present."),
     World self tr).
Proof. intros Hbrand. rewrite test_unfold, exec_unfold. simpl this. by rewrite Hbrand. Qed.

Lemma converters_URLPatternInput_null (opts : Opts) :
  type VNull = Return "Null" ->
  converters_URLPatternInput VNull opts = Return (VObject ∅).
Proof.
  intros Htype.
  unfold converters_URLPatternInput, converters_URLPatternInit, createDictionaryConverter.
  simpl. by rewrite Htype.
Qed.

Lemma converters_URLPatternInput_empty (opts : Opts) :
  type (VObject ∅) = Return "Object" ->
  converters_URLPatternInput (VObject ∅) opts = Return (VObject ∅).
Proof.
  intros Htype. unfold converters_URLPatternInput. simpl.
  unfold converters_URLPatternInit.
  rewrite (createDictionaryConverter_object _ _ _ _ Htype eq_refl).
  change (concat [?l]) with l. by rewrite URLPatternInit_members.
Qed.


(** ** What [test] and [exec] throw, and what they call *)

(** X15.  On a constructed pattern, given that the resolver only answers
    with values for components the pattern has, [test] and [exec] throw in
    two cases only: the conversion of the arguments threw, or the resolver
    threw; they throw what was thrown there. *)
Theorem test_exec_throw_only (self : Receiver) (components : object Component)
    (args : list value) (e : exn) :
  constructed self ->
  components_property self = Some components ->
  (forall input baseURL values inputs,
     urlpatternProcessMatchInput input baseURL = Return (Some (values, inputs)) ->
     Forall (fun key => key ∈ components.*1) values.*1) ->
  (outcome (test args) self = Throw e <->
     convert_arguments "Failed to execute 'test' on 'URLPattern'" args = Throw e \/
     exists input baseURL,
       convert_arguments "Failed to execute 'test' on 'URLPattern'" args
         = Return (input, baseURL) /\
       urlpatternProcessMatchInput input baseURL = Throw e) /\
  (outcome (exec args) self = Throw e <->
     convert_arguments "Failed to execute 'exec' on 'URLPattern'" args = Throw e \/
     exists input baseURL,
       convert_arguments "Failed to execute 'exec' on 'URLPattern'" args
         = Return (input, baseURL) /\
       urlpatternProcessMatchInput input baseURL = Throw e).
Proof.
  intros Hconstructed Hcomponents Hvalues.
  assert (Hloop : forall values inputs input baseURL w,
    this w = self ->
    urlpatternProcessMatchInput input baseURL = Return (Some (values, inputs)) ->
    exists b, (test_loop values w).1 = Return b).
  { intros values inputs input baseURL w Hw Hresolve.
    rewrite test_loop_run; [by eexists|].
    apply Hvalues in Hresolve. rewrite Hw.
    apply Forall_fmap in Hresolve. eapply Forall_impl; [exact Hresolve|].
    intros [key v]. unfold compose. simpl. intros Hkey.
    destruct (constructed_component_regexp self components key)
      as (component & r & _ & _ & Hcr); [done..|]. by rewrite Hcr. }
  unfold outcome, run. rewrite test_unfold, exec_unfold. simpl this.
  rewrite (constructed_branded self Hconstructed). split.
  - destruct (convert_arguments _ args) as [[input baseURL]|e'].
    + cbv zeta.
      destruct (urlpatternProcessMatchInput input baseURL) as [[[values inputs]|]|e'']
        eqn:Hresolve.
      * destruct (Hloop values inputs input baseURL
          (logged (World self []) (call_urlpatternProcessMatchInput input baseURL))
          eq_refl Hresolve) as [b ->].
        split; [done|]. intros [|(i & b' & [= <- <-] & ?)]; congruence.
      * split; [done|]. intros [|(i & b' & [= <- <-] & ?)]; congruence.
      * simpl. split.
        -- intros [= ->]. right. by exists input, baseURL.
        -- intros [|(i & b' & [= <- <-] & ?)]; congruence.
    + simpl. split.
      * intros [= ->]. by left.
      * intros [[= ->]|(i & b' & ? & _)]; done.
  - destruct (convert_arguments _ args) as [[input baseURL]|e'].
    + cbv zeta.
      destruct (urlpatternProcessMatchInput input baseURL) as [[[values inputs]|]|e'']
        eqn:Hresolve.
      * set (w := logged (World self []) (call_urlpatternProcessMatchInput input baseURL)).
        destruct (Hloop values inputs input baseURL w eq_refl Hresolve) as [b Hb].
        pose proof (loops_agree values
          {[ "inputs" := inputs_property
               (if is_null (default VUndefined (inputs !! 1%nat))
                then removelast inputs else inputs) ]} w w eq_refl) as Hagree.
        rewrite Hb in Hagree.
        destruct (exec_loop values _ w).1 as [o|]; [|done].
        split; [done|]. intros [|(i & b' & [= <- <-] & ?)]; congruence.
      * split; [done|]. intros [|(i & b' & [= <- <-] & ?)]; congruence.
      * simpl. split.
        -- intros [= ->]. right. by exists input, baseURL.
        -- intros [|(i & b' & [= <- <-] & ?)]; congruence.
    + simpl. split.
      * intros [= ->]. by left.
      * intros [[= ->]|(i & b' & ? & _)]; done.
Qed.

(** X16.  The constructor throws in three cases only: the conversion of the
    arguments threw, before the WebAssembly module was called; the pattern
    compiler threw, before any regular expression was compiled; or the
    engine rejected the source of a component, the first one it rejects. *)
Theorem constructor_throws_only (args : list value) (e : exn) (tr : list event) :
  new_URLPattern args = (Throw e, tr) ->
  (convert_arguments "Failed to construct 'URLPattern'" args = Throw e /\ tr = []) \/
  (exists input baseURL,
     convert_arguments "Failed to construct 'URLPattern'" args = Return (input, baseURL) /\
     urlpatternParse input baseURL = Throw e /\
     tr = [call_urlpatternParse input baseURL]) \/
  (exists input baseURL components before key component after e0,
     convert_arguments "Failed to construct 'URLPattern'" args = Return (input, baseURL) /\
     urlpatternParse input baseURL = Return components /\
     components = before ++ (key, component) :: after /\
     Forall (fun entry => returns (new_RegExp (regexpString entry.2) "u") = true) before /\
     new_RegExp (regexpString component) "u" = Throw e0 /\
     e = Exn TypeError
           ("Failed to construct 'URLPattern': " +:+ key +:+ " is invalid; " +:+ message e0) /\
     tr = call_urlpatternParse input baseURL ::
            (compilation <$> before ++ [(key, component)])).
Proof.
  rewrite new_URLPattern_unfold.
  destruct (convert_arguments _ args) as [[input baseURL]|e'] eqn:Hconvert.
  2:{ intros [= -> <-]. by left. }
  destruct (urlpatternParse input baseURL) as [components|e'] eqn:Hparse.
  2:{ intros [= -> <-]. right. left. by exists input, baseURL. }
  pose proof (compile_components_run "Failed to construct 'URLPattern'" components
    (World (with_brand new_object (VSymbol brand)) [call_urlpatternParse input baseURL]))
    as Hrun.
  destruct (compile_components _ _ _) as [[components'|e'] w]; [done|].
  destruct Hrun as (before & key & component & after & e0 & -> & Hbefore & He0 & -> & ->).
  intros [= <- <-]. right. right.
  exists input, baseURL, (before ++ (key, component) :: after), before, key, component,
    after, e0.
  by repeat (split; [done|]).
Qed.

Lemma loops_same_calls values :
  forall result w w',
    this w = this w' ->
    trace w' = as_exec <$> trace w ->
    trace (exec_loop values result w').2 = as_exec <$> trace (test_loop values w).2.
Proof.
  induction values as [|[key v] rest IH]; intros result w w' Hthis Htrace; [done|].
  rewrite test_loop_unfold, exec_loop_unfold, <- Hthis.
  destruct (component_regexp_method "test" "exec" (this w) key) as [[component r]|];
    [|done].
  unfold regexp_test. cbv zeta.
  assert (Hlogged : trace (logged w' (call_regexp_exec key v)) =
                    as_exec <$> trace (logged w (call_regexp_test key v))).
  { simpl. by rewrite fmap_app, Htrace. }
  destruct (regexp_exec r v) as [match_|] eqn:Hexec.
  - rewrite bool_decide_eq_true_2 by done. by apply IH.
  - rewrite bool_decide_eq_false_2 by (by intros [? ?]). done.
Qed.

(** X17.  On every receiver and for all arguments, [exec] makes the calls
    that [test] makes, in the same order: the same call of the resolver,
    and a regular expression [exec] on the same component with the same
    value wherever [test] runs a regular expression [test]; so [exec] too
    stops at the first component that does not match. *)
Theorem exec_calls_mirror_test (self : Receiver) (args : list value) :
  calls (exec args) self = as_exec <$> calls (test args) self.
Proof.
  unfold calls, run. rewrite test_unfold, exec_unfold. simpl this.
  destruct (assertBranded self); [|done].
  destruct (convert_arguments_prefix "Failed to execute 'test' on 'URLPattern'"
              "Failed to execute 'exec' on 'URLPattern'" args) as [[input baseURL]|]; [|done].
  cbv zeta.
  destruct (urlpatternProcessMatchInput input baseURL) as [[[values inputs]|]|]; [|done|done].
  by apply loops_same_calls.
Qed.

Lemma exec_loop_properties values :
  forall result w r w',
    exec_loop values result w = (Return (Some r), w') ->
    (forall key, is_Some (r !! key) <-> is_Some (result !! key) \/ key ∈ values.*1) /\
    (forall key, key ∈ values.*1 -> exists c, r !! key = Some (component_property c)).
Proof.
  induction values as [|[key v] rest IH]; intros result w r w'.
  { simpl. intros [= <- _]. split; [|by intros key H; apply elem_of_nil in H].
    intros key. split; [by left|]. intros [|H]; [done|]. by apply elem_of_nil in H. }
  rewrite exec_loop_unfold.
  destruct (component_regexp "exec" (this w) key) as [[component rx]|]; [|done].
  cbv zeta. destruct (regexp_exec rx v) as [match_|]; [|done].
  intros Hloop. pose proof Hloop as Hother. apply exec_loop_returns in Hother as [Hother _].
  apply IH in Hloop as [Hdom Hthese]. rewrite fmap_cons. split.
  - intros key'. rewrite Hdom, elem_of_cons.
    destruct (decide (key = key')) as [<-|Hne].
    + rewrite lookup_insert_eq. split; [by right; left|by left].
    + rewrite lookup_insert_ne by done. split; [intros [|]; auto|].
      intros [|[|]]; auto. by subst.
  - intros key' [->|Hin]%elem_of_cons; [|by apply Hthese]. simpl.
    destruct (decide (key ∈ rest.*1)) as [Hin|Hnotin]; [by apply Hthese|].
    rewrite (Hother key Hnotin), lookup_insert_eq. by eexists.
Qed.

(** X18.  A result of [exec] has the property [inputs] and one property for
    each component the resolver gave a value for, and no other property;
    each of the latter is a component result, and [inputs] is what the
    resolver recorded, without its last entry when the second entry is
    [null]. *)
Theorem exec_result_properties (self : Receiver) (args : list value)
    (prefix : string) (input baseURL : value)
    (values : object jsstring) (inputs : list value)
    (result : gmap string result_property) :
  convert_arguments prefix args = Return (input, baseURL) ->
  urlpatternProcessMatchInput input baseURL = Return (Some (values, inputs)) ->
  outcome (exec args) self = Return (Some result) ->
  (forall key, is_Some (result !! key) <-> key = "inputs" \/ key ∈ values.*1) /\
  (forall key, key ∈ values.*1 -> exists c, result !! key = Some (component_property c)) /\
  ("inputs" ∉ values.*1 ->
   result !! "inputs" =
     Some (inputs_property
             (if is_null (default VUndefined (inputs !! 1%nat))
              then removelast inputs else inputs))).
Proof.
  intros Hconvert Hresolve. unfold outcome, run. rewrite exec_unfold. simpl this.
  destruct (assertBranded self); [|done].
  rewrite (convert_arguments_any _ "Failed to execute 'exec' on 'URLPattern'" _ _ Hconvert).
  cbv zeta. rewrite Hresolve.
  destruct (exec_loop _ _ _) as [c w'] eqn:Hloop. simpl. intros ->.
  pose proof Hloop as Hother. apply exec_loop_returns in Hother as [Hother _].
  apply exec_loop_properties in Hloop as [Hdom Hthese].
  split; [|split; [done|]].
  - intros key. rewrite Hdom. destruct (decide (key = "inputs")) as [->|Hne].
    + rewrite lookup_singleton_eq. split; [by left|by left].
    + rewrite lookup_singleton_ne by done. split; [intros [[? ?]|]; [done|by right]|].
      intros [|]; [done|by right].
  - intros Hnotin. rewrite (Hother _ Hnotin). by rewrite lookup_singleton_eq.
Qed.

(** ** The inspection method *)

Lemma constructed_pattern_getter (args : list value) (input baseURL : value)
    (components : object Component) (self : Receiver) (tr : list event) :
  convert_arguments "Failed to construct 'URLPattern'" args = Return (input, baseURL) ->
  urlpatternParse input baseURL = Return components ->
  eight_components components ->
  new_URLPattern args = (Return self, tr) ->
  forall key, key ∈ component_keys ->
    exists component,
      object_get components key = Some component /\
      forall tr', pattern_getter key (World self tr')
                  = (Return (patternString component), World self tr').
Proof.
  intros Hconvert Hparse Height Hnew key Hkey.
  destruct (new_URLPattern_returns _ _ _ Hnew)
    as (input' & baseURL' & components0 & components' & Hc & Hp & Hall & -> & _).
  rewrite Hconvert in Hc. injection Hc as <- <-.
  rewrite Hparse in Hp. injection Hp as <-.
  destruct (compiled_object_get components components' key Hall)
    as (before & after & r & Hin & Hget & _ & ->).
  { unfold eight_components in Height. by rewrite Height. }
  exists before. split.
  { apply object_get_elem_of; [by apply eight_components_NoDup|done]. }
  intros tr'. unfold pattern_getter, mbind, M_bind, get_this, lift. simpl.
  by rewrite Hget.
Qed.

(** X19.  On a constructed pattern the inspection method hands [inspect] an
    object with the eight pattern strings under their component names, in
    the order protocol, username, password, hostname, port, pathname,
    search, hash; it returns the text [URLPattern ] followed by what
    [inspect] returned, throws what [inspect] threw, and leaves the pattern
    as it is. *)
Theorem customInspect_shows_pattern_strings (args : list value) (input baseURL : value)
    (components : object Component) (self : Receiver) (tr : list event)
    (inspect : object jsstring -> completion jsstring) :
  convert_arguments "Failed to construct 'URLPattern'" args = Return (input, baseURL) ->
  urlpatternParse input baseURL = Return components ->
  eight_components components ->
  new_URLPattern args = (Return self, tr) ->
  exists shown : object jsstring,
    shown.*1 = component_keys /\
    (forall key s, (key, s) ∈ shown ->
       exists component, (key, component) ∈ components /\ s = patternString component) /\
    run (customInspect inspect) self =
      (text ← inspect shown; Return (js "URLPattern " ++ text), World self []).
Proof.
  intros Hconvert Hparse Height Hnew.
  pose proof (constructed_pattern_getter args input baseURL components self tr
                Hconvert Hparse Height Hnew) as Hgetter.
  assert (Hin : forall key component,
    object_get components key = Some component -> (key, component) ∈ components).
  { clear. intros key component. induction components as [|[k c] rest IH]; [done|].
    simpl. destruct (String.eqb_spec k key) as [->|_].
    - intros [= ->]. by left.
    - intros H. right. by apply IH. }
  destruct (Hgetter "protocol") as (c1 & Hc1 & Hg1); [by repeat constructor|].
  destruct (Hgetter "username") as (c2 & Hc2 & Hg2); [by repeat constructor|].
  destruct (Hgetter "password") as (c3 & Hc3 & Hg3); [by repeat constructor|].
  destruct (Hgetter "hostname") as (c4 & Hc4 & Hg4); [by repeat constructor|].
  destruct (Hgetter "port") as (c5 & Hc5 & Hg5); [by repeat constructor|].
  destruct (Hgetter "pathname") as (c6 & Hc6 & Hg6); [by repeat constructor|].
  destruct (Hgetter "search") as (c7 & Hc7 & Hg7); [by repeat constructor|].
  destruct (Hgetter "hash") as (c8 & Hc8 & Hg8); [by repeat constructor|].
  exists [("protocol", patternString c1); ("username", patternString c2);
          ("password", patternString c3); ("hostname", patternString c4);
          ("port", patternString c5); ("pathname", patternString c6);
          ("search", patternString c7); ("hash", patternString c8)].
  split; [done|]. split.
  - intros key s Hs.
    repeat (apply elem_of_cons in Hs as [[= -> ->]|Hs]; [eexists; split; [by apply Hin|done]|]).
    by apply elem_of_nil in Hs.
  - unfold run, customInspect, URLPattern_protocol, URLPattern_username, URLPattern_password,
      URLPattern_hostname, URLPattern_port, URLPattern_pathname, URLPattern_search,
      URLPattern_hash.
    unfold mbind at 1, M_bind at 1. rewrite Hg1.
    unfold mbind at 1, M_bind at 1. rewrite Hg2.
    unfold mbind at 1, M_bind at 1. rewrite Hg3.
    unfold mbind at 1, M_bind at 1. rewrite Hg4.
    unfold mbind at 1, M_bind at 1. rewrite Hg5.
    unfold mbind at 1, M_bind at 1. rewrite Hg6.
    unfold mbind at 1, M_bind at 1. rewrite Hg7.
    unfold mbind at 1, M_bind at 1. rewrite Hg8.
    unfold mbind at 1, M_bind at 1, lift.
    by destruct (inspect _).
Qed.

(** ** The constructor against [test] and [exec] *)

(** X20.  Construction returns whenever the arguments convert, the pattern
    compiler returns and the engine accepts the source of every component;
    the new pattern passes the brand check and carries the compiled
    components. *)
Theorem construction_succeeds (args : list value) (input baseURL : value)
    (components : object Component) :
  convert_arguments "Failed to construct 'URLPattern'" args = Return (input, baseURL) ->
  urlpatternParse input baseURL = Return components ->
  Forall (fun entry => returns (new_RegExp (regexpString entry.2) "u") = true) components ->
  exists self components',
    new_URLPattern args =
      (Return self, call_urlpatternParse input baseURL :: (compilation <$> components)) /\
    assertBranded self = Return () /\
    components_property self = Some components' /\
    Forall2 compiled components components'.
Proof.
  intros Hconvert Hparse Hall. rewrite new_URLPattern_unfold, Hconvert, Hparse.
  pose proof (compile_components_run "Failed to construct 'URLPattern'" components
    (World (with_brand new_object (VSymbol brand)) [call_urlpatternParse input baseURL]))
    as Hrun.
  destruct (compile_components _ _ _) as [[components'|e] w].
  - destruct Hrun as [Hcompiled ->]. by eexists _, components'.
  - destruct Hrun as (before & key & component & after & e0 & -> & _ & He0 & _).
    apply Forall_app in Hall as [_ [Hhere _]%Forall_cons]. simpl in Hhere.
    by rewrite He0 in Hhere.
Qed.

(** X21.  The constructor, [test] and [exec] convert their arguments alike:
    for the same arguments, the resolver is called exactly when the pattern
    compiler is, and with the same converted input and base URL. *)
Theorem conversions_shared (self : Receiver) (args : list value) (input baseURL : value) :
  assertBranded self = Return () ->
  (head (new_URLPattern args).2 = Some (call_urlpatternParse input baseURL) <->
   head (calls (test args) self) = Some (call_urlpatternProcessMatchInput input baseURL)) /\
  (head (new_URLPattern args).2 = Some (call_urlpatternParse input baseURL) <->
   head (calls (exec args) self) = Some (call_urlpatternProcessMatchInput input baseURL)).
Proof.
  intros Hbrand.
  assert (Hnew : head (new_URLPattern args).2 = Some (call_urlpatternParse input baseURL) <->
    convert_arguments "Failed to construct 'URLPattern'" args = Return (input, baseURL)).
  { rewrite new_URLPattern_unfold.
    destruct (convert_arguments _ args) as [[input' baseURL']|]; [|done].
    assert (Hhead : head (match urlpatternParse input' baseURL' with
        | Return components =>
          match compile_components "Failed to construct 'URLPattern'" components
                  (World (with_brand new_object (VSymbol brand))
                     [call_urlpatternParse input' baseURL']) with
          | (Return components', w) => (Return (with_components (this w) components'), trace w)
          | (Throw e, w) => (Throw e, trace w)
          end
        | Throw e => (Throw e, [call_urlpatternParse input' baseURL'])
        end).2 = Some (call_urlpatternParse input' baseURL')).
    { destruct (urlpatternParse input' baseURL') as [components|]; [|done].
      pose proof (compile_components_run "Failed to construct 'URLPattern'" components
        (World (with_brand new_object (VSymbol brand))
           [call_urlpatternParse input' baseURL'])) as Hrun.
      destruct (compile_components _ _ _) as [[components'|e] w].
      - by destruct Hrun as [_ ->].
      - by destruct Hrun as (? & ? & ? & ? & ? & _ & _ & _ & _ & ->). }
    rewrite Hhead. split; intros [= -> ->]; done. }
  assert (Hloops : forall values result w e,
    head (trace w) = Some e ->
    head (trace (test_loop values w).2) = Some e /\
    head (trace (exec_loop values result w).2) = Some e).
  { induction values as [|[key v] rest IH]; intros result w e Hw; [done|].
    rewrite test_loop_unfold, exec_loop_unfold.
    assert (Hlogged : forall e', head (trace (logged w e')) = Some e).
    { intros e'. simpl. destruct (trace w); [done|]. done. }
    split.
    - destruct (component_regexp "test" (this w) key) as [[component r]|]; [|done].
      cbv zeta. destruct (regexp_test r v); [|by apply Hlogged].
      by apply (IH ∅), Hlogged.
    - destruct (component_regexp "exec" (this w) key) as [[component r]|]; [|done].
      cbv zeta. destruct (regexp_exec r v); [|by apply Hlogged].
      by apply IH, Hlogged. }
  rewrite !Hnew. unfold calls, run. rewrite test_unfold, exec_unfold. simpl this.
  rewrite Hbrand. split.
  - destruct (convert_arguments "Failed to execute 'test' on 'URLPattern'" args)
      as [[input' baseURL']|] eqn:Hconvert.
    + rewrite (convert_arguments_any _ "Failed to construct 'URLPattern'" _ _ Hconvert).
      cbv zeta.
      set (w := logged (World self []) (call_urlpatternProcessMatchInput input' baseURL')).
      assert (Hhead : head (trace (match urlpatternProcessMatchInput input' baseURL' with
          | Return (Some (values, _)) => test_loop values w
          | Return None => (Return false, w)
          | Throw e => (Throw e, w)
          end).2) = Some (call_urlpatternProcessMatchInput input' baseURL')).
      { destruct (urlpatternProcessMatchInput input' baseURL') as [[[values inputs]|]|];
          [|done|done].
        by apply (Hloops values ∅ w). }
      rewrite Hhead. split; intros [= -> ->]; done.
    + destruct (convert_arguments_prefix "Failed to execute 'test' on 'URLPattern'"
                  "Failed to construct 'URLPattern'" args) as [|]; done.
  - destruct (convert_arguments "Failed to execute 'exec' on 'URLPattern'" args)
      as [[input' baseURL']|] eqn:Hconvert.
    + rewrite (convert_arguments_any _ "Failed to construct 'URLPattern'" _ _ Hconvert).
      cbv zeta.
      set (w := logged (World self []) (call_urlpatternProcessMatchInput input' baseURL')).
      assert (Hhead : forall inputs', head (trace
          (match urlpatternProcessMatchInput input' baseURL' with
           | Return (Some (values, inputs)) =>
             exec_loop values {[ "inputs" := inputs_property (inputs' inputs) ]} w
           | Return None => (Return None, w)
           | Throw e => (Throw e, w)
           end).2) = Some (call_urlpatternProcessMatchInput input' baseURL')).
      { intros inputs'.
        destruct (urlpatternProcessMatchInput input' baseURL') as [[[values inputs]|]|];
          [|done|done].
        by apply (Hloops values _ w). }
      rewrite (Hhead (fun inputs =>
        if is_null (default VUndefined (inputs !! 1%nat)) then removelast inputs else inputs)).
      split; intros [= -> ->]; done.
    + destruct (convert_arguments_prefix "Failed to execute 'exec' on 'URLPattern'"
                  "Failed to construct 'URLPattern'" args) as [|]; done.
Qed.

(** ** Converting what was converted *)

Lemma converters_USVString_DOMString (V : value) (opts : Opts) :
  (forall n, Forall code_unit (Number_toString n)) ->
  (forall props Str, Object_toString props = Return Str -> Forall code_unit Str) ->
  code_units V ->
  forall r, converters_USVString V opts = Return r ->
    exists U, r = VString U /\ Forall code_unit U /\ isWellFormed U = true.
Proof.
  intros Hnumber Hobject HV r. unfold converters_USVString.
  destruct (converters_DOMString V opts) as [Str|] eqn:HStr; [|done]. simpl.
  pose proof (converters_DOMString_code_units V opts Str Hnumber Hobject HV HStr) as Hcu.
  pose proof (USVString_loop_toWellFormed (length Str) Str [] [] (le_n _) Hcu) as H.
  rewrite !app_nil_l in H. change (Z.of_nat (length [])) with 0 in H. rewrite H.
  intros [= <-]. exists (toWellFormed Str).
  split; [done|]. split; [by apply toWellFormed_code_unit|apply toWellFormed_isWellFormed].
Qed.

Lemma converters_USVString_fixed (U : jsstring) (opts : Opts) :
  Forall code_unit U -> isWellFormed U = true ->
  converters_USVString (VString U) opts = Return (VString U).
Proof.
  intros Hcu Hwf. rewrite converters_USVString_toWellFormed by done.
  by rewrite toWellFormed_id.
Qed.

Lemma URLPatternInit_members_NoDup :
  NoDup (key <$> ((fun k => {| key := k; converter := converters_USVString;
                                required := false |}) <$> URLPatternInit_keys)).
Proof. apply (bool_decide_unpack _). by vm_compute. Qed.

Lemma converters_URLPatternInit_idempotent (props : gmap string value) (opts opts' : Opts)
    (r : value) :
  (forall n, Forall code_unit (Number_toString n)) ->
  (forall props Str, Object_toString props = Return Str -> Forall code_unit Str) ->
  (forall d, type (VObject d) = Return "Object") ->
  (forall k x, props !! k = Some x -> code_units x) ->
  converters_URLPatternInit (VObject props) opts = Return r ->
  converters_URLPatternInit r opts' = Return r.
Proof.
  intros Hnumber Hobject Htype Hprops Hr.
  pose proof (converters_URLPatternInit_value _ _ _ Hr) as (d & -> & _).
  unfold converters_URLPatternInit in Hr |- *.
  rewrite (createDictionaryConverter_object _ _ _ _ (Htype _) eq_refl) in Hr.
  rewrite (createDictionaryConverter_object _ _ _ _ (Htype _) eq_refl).
  change (concat [?l]) with l in Hr |- *. rewrite URLPatternInit_members in Hr |- *.
  set (allMembers := (fun k => {| key := k; converter := converters_USVString;
                                   required := false |}) <$> URLPatternInit_keys) in *.
  destruct (convert_members _ _ (VObject props) _ allMembers ∅) as [d0|] eqn:Hfirst;
    [|done].
  injection Hr as ->.
  assert (Hstrings : forall k x, d !! k = Some x ->
    exists U, x = VString U /\ Forall code_unit U /\ isWellFormed U = true).
  { eapply (convert_members_invariant
              (fun _ x => exists U, x = VString U /\ Forall code_unit U /\
                                    isWellFormed U = true));
      [|by intros ? ?; rewrite lookup_empty|exact Hfirst].
    apply Forall_fmap, Forall_forall. intros k _ o r. simpl.
    apply converters_USVString_DOMString; [done..|].
    destruct (props !! k) as [x|] eqn:Hx; [by eapply Hprops|done]. }
  apply convert_members_lookup in Hfirst as [Hother Hthese];
    [|done|apply URLPatternInit_members_NoDup].
  destruct (convert_members _ _ (VObject d) _ allMembers ∅) as [d'|e] eqn:Hsecond.
  - unfold mbind, completion_bind. f_equal. f_equal.
    apply convert_members_lookup in Hsecond as [Hother' Hthese'];
      [|done|apply URLPatternInit_members_NoDup].
    apply map_eq. intros k.
    destruct (decide (k ∈ key <$> allMembers)) as [Hk|Hk].
    + apply list_elem_of_fmap in Hk as (member & -> & Hmember).
      specialize (Hthese' member Hmember).
      assert (Hconverter : converter member = converters_USVString).
      { unfold allMembers in Hmember.
        by apply list_elem_of_fmap in Hmember as (k & -> & _). }
      rewrite Hconverter in Hthese'. simpl in Hthese'.
      destruct (d !! key member) as [x|] eqn:Hx; simpl in Hthese'.
      * destruct (Hstrings _ _ Hx) as (U & -> & Hcu & Hwf). simpl in Hthese'.
        destruct Hthese' as (o & v & _ & Hv & ->).
        rewrite converters_USVString_fixed in Hv by done. by injection Hv as <-.
      * by rewrite Hthese', lookup_empty.
    + by rewrite (Hother' k Hk), (Hother k Hk).
  - exfalso.
    apply convert_members_throws in Hsecond as (before & member & after & Heq & _ & Hm);
      [|done].
    assert (Hmember : member ∈ allMembers).
    { rewrite Heq. apply elem_of_app. right. by left. }
    assert (Hconverter : converter member = converters_USVString).
    { unfold allMembers in Hmember.
      by apply list_elem_of_fmap in Hmember as (k & -> & _). }
    rewrite Hconverter in Hm. simpl in Hm.
    destruct (d !! key member) as [x|] eqn:Hx; simpl in Hm.
    + destruct (Hstrings _ _ Hx) as (U & -> & Hcu & Hwf). simpl in Hm.
      by rewrite converters_USVString_fixed in Hm.
    + destruct Hm as [Hrequired _]. unfold allMembers in Hmember.
      by apply list_elem_of_fmap in Hmember as (k & -> & _).
Qed.

(** X22.  What the argument conversion returned converts to itself: given a
    host whose string conversions yield 16-bit code units and whose [type]
    knows [null] and objects, the converted input and base URL, passed as
    arguments again, are converted to the same input and base URL. *)
Theorem conversion_idempotent (prefix prefix' : string) (args : list value)
    (input baseURL : value) :
  (forall n, Forall code_unit (Number_toString n)) ->
  (forall props Str, Object_toString props = Return Str -> Forall code_unit Str) ->
  type VNull = Return "Null" ->
  (forall d, type (VObject d) = Return "Object") ->
  Forall argument_code_units args ->
  convert_arguments prefix args = Return (input, baseURL) ->
  convert_arguments prefix' [input; baseURL] = Return (input, baseURL).
Proof.
  intros Hnumber Hobject Hnull Htype Hargs.
  assert (Hargument : forall i, argument_code_units (argument args i)).
  { intros i. unfold argument. destruct (args !! i) as [V|] eqn:HV; [|done].
    rewrite Forall_forall in Hargs. apply Hargs. by eapply list_elem_of_lookup_2. }
  unfold convert_arguments at 1.
  destruct (requiredArguments _ _ _); [|done]. unfold mbind at 1, completion_bind at 1.
  destruct (converters_URLPatternInput (argument args 0) _) as [input'|] eqn:Hinput; [|done].
  unfold mbind at 1, completion_bind at 1.
  assert (Hinput' : forall opts, converters_URLPatternInput input' opts = Return input').
  { intros opts. unfold converters_URLPatternInput in Hinput.
    pose proof (Hargument 0%nat) as H0.
    destruct (argument args 0) as [| | | | | | |props] eqn:HV; simpl in Hinput.
    1,3,4,5,6,7:
      apply converters_USVString_DOMString in Hinput as (U & -> & Hcu & Hwf); [|done..];
      unfold converters_URLPatternInput; simpl; by apply converters_USVString_fixed.
    - change (converters_URLPatternInit VNull ?o) with (converters_URLPatternInput VNull o)
        in Hinput.
      rewrite converters_URLPatternInput_null in Hinput by done. injection Hinput as <-.
      by apply converters_URLPatternInput_empty.
    - pose proof (converters_URLPatternInit_value _ _ _ Hinput) as (d & -> & _).
      unfold converters_URLPatternInput. simpl.
      by eapply converters_URLPatternInit_idempotent. }
  destruct (is_undefined (argument args 1)) eqn:Hundefined; simpl negb; cbv iota.
  - intros [= <- <-]. unfold convert_arguments. simpl length. simpl argument.
    rewrite Hinput'. by destruct (argument args 1).
  - destruct (converters_USVString (argument args 1) _) as [baseURL'|] eqn:HbaseURL; [|done].
    simpl. intros [= <- <-].
    apply converters_USVString_DOMString in HbaseURL as (U & -> & Hcu & Hwf); [|done..|].
    + unfold convert_arguments. simpl length. simpl argument.
      rewrite Hinput'. change (argument [input'; VString U] 1) with (VString U).
      by rewrite converters_USVString_fixed.
    + pose proof (Hargument 1%nat) as H1. by destruct (argument args 1).
Qed.

End Host.

(** * Closed examples on the toy host *)

Abbreviation toy_new :=
  (new_URLPattern toy_type toy_makeException toy_Number_toString toy_Object_toString
     toy_urlpatternParse toy_RegExp).
Abbreviation toy_test :=
  (test toy_type toy_makeException toy_Number_toString toy_Object_toString
     toy_urlpatternProcessMatchInput).
Abbreviation toy_exec :=
  (exec toy_type toy_makeException toy_Number_toString toy_Object_toString
     toy_urlpatternProcessMatchInput).
Abbreviation toy_convert :=
  (convert_arguments toy_type toy_makeException toy_Number_toString toy_Object_toString).
Abbreviation toy_constructed :=
  (constructed toy_type toy_makeException toy_Number_toString toy_Object_toString
     toy_urlpatternParse toy_RegExp).

(** [new URLPattern({})] and [new URLPattern({ pathname: "/books" })] *)
Abbreviation any_pattern :=
  (match (toy_new [VObject ∅]).1 with Return p => p | Throw _ => new_object end).
Abbreviation books_pattern :=
  (match (toy_new [VObject {[ "pathname" := VString (js "/books") ]}]).1 with
   | Return p => p
   | Throw _ => new_object
   end).

Abbreviation result_of c := (match c with Return (Some r) => r | _ => ∅ end).

(** Closes an equation between closed terms by evaluation. *)
Ltac vm_refl := match goal with |- _ = ?r => vm_cast_no_check (@eq_refl _ r) end.

Example USVString_loop_example :
  USVString_loop [0x61; 0xD83D; 0xDE00; 0xDC00; 0xD800; 0x62; 0xD800] 7 0 [] =
  Return [0x61; 0xD83D; 0xDE00; 0xFFFD; 0xFFFD; 0x62; 0xFFFD].
Proof. vm_compute. reflexivity. Qed.

Example test_example :
  outcome (toy_test [VString (js "https://example.com/books")]) books_pattern = Return true /\
  outcome (toy_test [VString (js "https://example.com/films")]) books_pattern = Return false /\
  outcome (toy_test [VString (js "books"); VString (js "https://example.com")]) books_pattern
    = Return true.
Proof. vm_compute. done. Qed.

Lemma USVString_well_formed_witness :
  Forall code_unit [0x61; 0xD83D; 0xDE00; 0xD800] /\
  exists U,
    converters_USVString toy_makeException toy_Number_toString toy_Object_toString
      (VString [0x61; 0xD83D; 0xDE00; 0xD800]) no_opts = Return (VString U) /\
    U = toWellFormed [0x61; 0xD83D; 0xDE00; 0xD800] /\
    isWellFormed U = true /\
    code_points U = replacement <$> code_points [0x61; 0xD83D; 0xDE00; 0xD800] /\
    (isWellFormed [0x61; 0xD83D; 0xDE00; 0xD800] = true -> U = [0x61; 0xD83D; 0xDE00; 0xD800]).
Proof.
  assert (H : Forall code_unit [0x61; 0xD83D; 0xDE00; 0xD800])
    by (repeat constructor; unfold code_unit; lia).
  split; [exact H|].
  apply (USVString_well_formed toy_makeException toy_Number_toString toy_Object_toString
           [0x61; 0xD83D; 0xDE00; 0xD800] no_opts H).
Defined.

Lemma any_pattern_constructed : toy_constructed any_pattern.
Proof. exists [VObject ∅]. vm_compute. reflexivity. Defined.

Lemma books_pattern_constructed : toy_constructed books_pattern.
Proof. exists [VObject {[ "pathname" := VString (js "/books") ]}]. vm_compute. reflexivity. Defined.

(** [new URLPattern({}).exec("not a url", "also not a url") === null] *)
Lemma unresolved_input_is_no_match_witness :
  outcome (toy_test [VString (js "not a url"); VString (js "also not a url")]) any_pattern
    = Return false /\
  outcome (toy_exec [VString (js "not a url"); VString (js "also not a url")]) any_pattern
    = Return None.
Proof.
  apply (unresolved_input_is_no_match toy_type toy_makeException toy_Number_toString
           toy_Object_toString toy_urlpatternParse toy_urlpatternProcessMatchInput toy_RegExp
           any_pattern [VString (js "not a url"); VString (js "also not a url")]
           "Failed to execute 'exec' on 'URLPattern'"
           (VString (js "not a url")) (VString (js "also not a url"))).
  - exact any_pattern_constructed.
  - vm_compute. reflexivity.
  - vm_compute. reflexivity.
Defined.

(** [new URLPattern(true, "https://example.com")] goes on as
    [new URLPattern("true", "https://example.com")]. *)
Lemma construction_argument_checks_witness :
  typeof (VBoolean true) <> "object" /\ typeof (VBoolean true) <> "symbol" /\
  exists Str,
    String_ toy_Number_toString toy_Object_toString (VBoolean true) = Return Str /\
    toy_new [VBoolean true; VString (js "https://example.com")] =
    toy_new [VString Str; VString (js "https://example.com")].
Proof.
  assert (H1 : typeof (VBoolean true) <> "object") by discriminate.
  assert (H2 : typeof (VBoolean true) <> "symbol") by discriminate.
  split; [exact H1|]. split; [exact H2|].
  exact (proj2 (proj2 (construction_argument_checks toy_type toy_makeException
           toy_Number_toString toy_Object_toString toy_urlpatternParse toy_RegExp))
           (VBoolean true) [VString (js "https://example.com")] H1 H2).
Defined.

(** C3, counterexample.  A boolean is neither a string nor an object, and
    [new URLPattern(true, "https://example.com")] returns a pattern. *)
Lemma boolean_input_constructs :
  typeof (VBoolean true) = "boolean" /\
  returns (toy_new [VBoolean true; VString (js "https://example.com")]).1 = true /\
  outcome (toy_test [VString (js "https://example.com/true")])
    (match (toy_new [VBoolean true; VString (js "https://example.com")]).1 with
     | Return p => p
     | Throw _ => new_object
     end) = Return true.
Proof. vm_compute. done. Qed.

(** [new URLPattern({ pathname: "(" })]: the engine rejects the source of the
    pathname component. *)
Lemma regexps_compiled_at_construction_witness :
  exists before key component after e msg,
    (fun key => (key, if String.eqb key "pathname" then literal (js "(") else wildcard))
      <$> component_keys = before ++ (key, component) :: after /\
    Forall (fun entry => returns (toy_RegExp (regexpString entry.2) "u") = true) before /\
    toy_RegExp (regexpString component) "u" = Throw e /\
    toy_new [VObject {[ "pathname" := VString (js "(") ]}] =
      (Throw (Exn TypeError msg),
       call_urlpatternParse (VObject {[ "pathname" := VString (js "(") ]}) VUndefined ::
         (compilation <$> before ++ [(key, component)])) /\
    contains key msg /\ contains (message e) msg.
Proof.
  apply (regexps_compiled_at_construction toy_type toy_makeException toy_Number_toString
           toy_Object_toString toy_urlpatternParse toy_RegExp
           [VObject {[ "pathname" := VString (js "(") ]}]
           (VObject {[ "pathname" := VString (js "(") ]}) VUndefined).
  - vm_compute. reflexivity.
  - vm_compute. reflexivity.
  - unfold eight_components. vm_compute. reflexivity.
  - apply Exists_exists. exists ("pathname", literal (js "(")). split.
    + vm_compute. repeat (first [left; reflexivity | right]).
    + vm_compute. reflexivity.
Defined.

Example construction_example :
  (toy_new [VObject {[ "pathname" := VString (js "(") ]}]).1 =
    Throw (Exn TypeError
             "Failed to construct 'URLPattern': pathname is invalid; Invalid regular expression") /\
  (toy_new [VObject {[ "pathname" := VString (js "/books") ]}]).2 =
    call_urlpatternParse (VObject {[ "pathname" := VString (js "/books") ]}) VUndefined ::
    (compilation <$>
       ((fun key => (key, if String.eqb key "pathname" then literal (js "/books") else wildcard))
          <$> component_keys)).
Proof. vm_compute. done. Qed.



(** [any_pattern.exec("https://example.com/books").pathname] *)
Lemma exec_component_results_witness :
  exists component r match_ groups,
    component_regexp "exec" any_pattern "pathname" = Return (component, r) /\
    regexp_exec r (js "/books") = Some match_ /\
    result_of (outcome (toy_exec [VString (js "https://example.com/books")]) any_pattern)
      !! "pathname" =
      Some (component_property {| input := js "/books"; groups := groups |}) /\
    (forall name, name ∉ groupNameList component -> groups !! name = None) /\
    (NoDup (groupNameList component) ->
     forall i name, groupNameList component !! i = Some name ->
       groups !! name = Some (capture match_ (S i))).
Proof.
  apply (exec_component_results toy_type toy_makeException toy_Number_toString
           toy_Object_toString toy_urlpatternProcessMatchInput any_pattern
           [VString (js "https://example.com/books")]
           "Failed to execute 'exec' on 'URLPattern'"
           (VString (js "https://example.com/books")) VUndefined
           (toy_url (js "example.com") (js "/books"))
           (recorded_inputs (VString (js "https://example.com/books")) VUndefined)).
  - vm_refl.
  - vm_refl.
  - apply (bool_decide_unpack _). vm_compute. exact I.
  - vm_refl.
  - vm_compute. repeat (first [left; reflexivity | right]).
Defined.

Example exec_example :
  result_of (outcome (toy_exec [VString (js "https://example.com/books")]) any_pattern)
    !! "pathname" =
  Some (component_property
          {| input := js "/books"; groups := {[ js "0" := js "/books" ]} |}).
Proof. vm_refl. Qed.

(** [books_pattern.test("https://example.com/films")]: pathname is the sixth
    component, it fails, and search and hash are not tested. *)
Lemma test_matches_all_components_witness :
  outcome (toy_test [VString (js "https://example.com/films")]) books_pattern = Return false /\
  tested books_pattern (toy_url (js "example.com") (js "/films")) =
    [("protocol", js "https"); ("username", []); ("password", []);
     ("hostname", js "example.com"); ("port", [])] ++ [("pathname", js "/films")].
Proof.
  assert (H1 : components_property books_pattern =
               Some (default [] (components_property books_pattern))) by vm_refl.
  assert (H2 : eight_components (default [] (components_property books_pattern)))
    by (unfold eight_components; vm_compute; reflexivity).
  assert (H3 : toy_convert "Failed to execute 'test' on 'URLPattern'"
                 [VString (js "https://example.com/films")] =
               Return (VString (js "https://example.com/films"), VUndefined)) by vm_refl.
  assert (H4 : toy_urlpatternProcessMatchInput (VString (js "https://example.com/films"))
                 VUndefined =
               Return (Some (toy_url (js "example.com") (js "/films"),
                             recorded_inputs (VString (js "https://example.com/films"))
                               VUndefined))) by vm_refl.
  assert (H5 : eight_components (toy_url (js "example.com") (js "/films")))
    by (unfold eight_components; vm_compute; reflexivity).
  pose proof (test_matches_all_components toy_type toy_makeException toy_Number_toString
                toy_Object_toString toy_urlpatternParse toy_urlpatternProcessMatchInput
                toy_RegExp books_pattern) as H.
  specialize (H [VString (js "https://example.com/films")]
                "Failed to execute 'test' on 'URLPattern'"
                (VString (js "https://example.com/films")) VUndefined
                (default [] (components_property books_pattern))
                (toy_url (js "example.com") (js "/films"))
                (recorded_inputs (VString (js "https://example.com/films")) VUndefined)).
  destruct (H books_pattern_constructed H1 H2 H3 H4 H5) as (_ & _ & _ & Hfirst).
  apply (Hfirst [("protocol", js "https"); ("username", []); ("password", []);
                 ("hostname", js "example.com"); ("port", [])]
                ("pathname", js "/films") [("search", []); ("hash", [])]).
  - reflexivity.
  - vm_refl.
  - vm_refl.
Defined.

(** A plain object as receiver: [URLPattern.prototype.test.call({}, ...)]. *)
Lemma unbranded_illegal_invocation_witness :
  (forall args,
     toy_test args (World {| instanceof_URLPattern := false; brand_property := VUndefined;
                             components_property := None |} []) =
       (Throw (Exn TypeError "Illegal invocation"),
        World {| instanceof_URLPattern := false; brand_property := VUndefined;
                 components_property := None |} [])) /\
  (forall args,
     toy_exec args (World {| instanceof_URLPattern := false; brand_property := VUndefined;
                             components_property := None |} []) =
       (Throw (Exn TypeError "Illegal invocation"),
        World {| instanceof_URLPattern := false; brand_property := VUndefined;
                 components_property := None |} [])) /\
  Forall (fun getter : M jsstring =>
            getter (World {| instanceof_URLPattern := false; brand_property := VUndefined;
                             components_property := None |} []) =
              (Throw (Exn TypeError "Illegal invocation"),
               World {| instanceof_URLPattern := false; brand_property := VUndefined;
                        components_property := None |} [])) getters.
Proof.
  apply (unbranded_illegal_invocation toy_type toy_makeException toy_Number_toString
           toy_Object_toString toy_urlpatternProcessMatchInput
           {| instanceof_URLPattern := false; brand_property := VUndefined;
              components_property := None |} []).
  left. reflexivity.
Defined.

(** C10, counterexample.  An object made with
    [Object.create(URLPattern.prototype)] and given the exported brand
    passes the brand check although no constructor ran on it: [test]
    without arguments then fails on the argument count, and a getter on the
    missing components. *)
Lemma forged_receiver_passes_brand_check :
  (forall type makeException Number_toString Object_toString urlpatternParse new_RegExp args,
     (new_URLPattern type makeException Number_toString Object_toString urlpatternParse
        new_RegExp args).1 <>
       Return {| instanceof_URLPattern := true; brand_property := VSymbol brand;
                 components_property := None |}) /\
  outcome (toy_test [])
    {| instanceof_URLPattern := true; brand_property := VSymbol brand;
       components_property := None |} =
    Throw (Exn TypeError
      "Failed to execute 'test' on 'URLPattern': 1 argument required, but only 0 present.") /\
  outcome URLPattern_protocol
    {| instanceof_URLPattern := true; brand_property := VSymbol brand;
       components_property := None |} =
    Throw (cannot_read "protocol").
Proof.
  split; [|split].
  - intros type makeException Number_toString Object_toString urlpatternParse new_RegExp args H.
    destruct (new_URLPattern _ _ _ _ _ _ args) as [c tr] eqn:Hnew. simpl in H. subst c.
    apply new_URLPattern_returns in Hnew
      as (input & baseURL & components & components' & _ & _ & _ & Hself & _).
    discriminate Hself.
  - vm_refl.
  - vm_refl.
Qed.

(** [books_pattern] after a [test] and two [exec] calls, one of them
    without arguments. *)
Lemma test_exec_leave_instance_witness :
  this (invoke_all toy_type toy_makeException toy_Number_toString toy_Object_toString
          toy_urlpatternProcessMatchInput
          [invoke_test [VString (js "https://example.com/films")];
           invoke_exec [VString (js "https://example.com/books")];
           invoke_exec []]
          (World books_pattern [])) = books_pattern.
Proof.
  apply (test_exec_leave_instance toy_type toy_makeException toy_Number_toString
           toy_Object_toString toy_urlpatternProcessMatchInput).
Defined.

(** [books_pattern.test(U) === (books_pattern.exec(U) !== null)] for a URL
    that matches. *)
Lemma test_iff_exec_witness :
  outcome (toy_test [VString (js "https://example.com/books")]) books_pattern = Return true <->
  exists result,
    outcome (toy_exec [VString (js "https://example.com/books")]) books_pattern =
      Return (Some result).
Proof.
  apply (test_iff_exec toy_type toy_makeException toy_Number_toString toy_Object_toString
           toy_urlpatternProcessMatchInput).
Defined.

(** [new URLPattern({ pathname: "/books" }).pathname] *)
Lemma getters_return_pattern_strings_witness :
  exists component,
    ("pathname", component) ∈
      ((fun key => (key, if String.eqb key "pathname" then literal (js "/books") else wildcard))
         <$> component_keys) /\
    outcome (pattern_getter "pathname") books_pattern = Return (patternString component).
Proof.
  apply (getters_return_pattern_strings toy_type toy_makeException toy_Number_toString
           toy_Object_toString toy_urlpatternParse toy_RegExp
           [VObject {[ "pathname" := VString (js "/books") ]}]
           (VObject {[ "pathname" := VString (js "/books") ]}) VUndefined
           ((fun key => (key, if String.eqb key "pathname" then literal (js "/books")
                              else wildcard)) <$> component_keys)
           books_pattern
           (toy_new [VObject {[ "pathname" := VString (js "/books") ]}]).2).
  - vm_refl.
  - vm_refl.
  - unfold eight_components. vm_compute. reflexivity.
  - vm_refl.
  - vm_compute. repeat (first [left; reflexivity | right]).
Defined.


Example getters_example :
  outcome URLPattern_pathname books_pattern = Return (js "/books") /\
  outcome URLPattern_hostname books_pattern = Return (js "*").
Proof. split; vm_refl. Qed.


(** * Closed examples for the further properties *)

Abbreviation toy_USVString :=
  (converters_USVString toy_makeException toy_Number_toString toy_Object_toString).
Abbreviation toy_URLPatternInit :=
  (converters_URLPatternInit toy_type toy_makeException toy_Number_toString
     toy_Object_toString).
Abbreviation toy_member key required :=
  {| key := key; converter := toy_USVString; required := required |}.

(** [converters.USVString] of a lone high surrogate followed by [a] is U+FFFD
    followed by [a]. *)
Lemma USVString_output_well_formed_witness :
  exists U, VString [0xFFFD; 97] = VString U /\ isWellFormed U = true.
Proof.
  apply (USVString_output_well_formed toy_makeException toy_Number_toString
           toy_Object_toString (VString [0xD800; 97]) no_opts).
  vm_refl.
Defined.

Lemma USVString_idempotent_witness :
  toy_USVString (VString [0xFFFD; 97]) no_opts = Return (VString [0xFFFD; 97]).
Proof.
  apply (USVString_idempotent toy_makeException toy_Number_toString toy_Object_toString
           [0xD800; 97] no_opts no_opts).
  - repeat (constructor; [unfold code_unit; lia|]). constructor.
  - vm_refl.
Defined.

Lemma USVString_in_place_witness :
  length [0xFFFD; 97] = length [0xD800; 97] /\
  Forall code_unit [0xFFFD; 97] /\
  (forall (i : nat) c, [0xD800; 97] !! i = Some c ->
     [0xFFFD; 97] !! i = Some c \/ (surrogate c = true /\ [0xFFFD; 97] !! i = Some 0xFFFD)).
Proof.
  apply (USVString_in_place toy_makeException toy_Number_toString toy_Object_toString
           [0xD800; 97] [0xFFFD; 97] no_opts).
  - repeat (constructor; [unfold code_unit; lia|]). constructor.
  - vm_refl.
Defined.

(** [converters.USVString(Symbol("[[webidl.brand]]"))] throws. *)
Lemma USVString_after_DOMString_witness :
  toy_USVString (VSymbol brand) no_opts =
    (Str ← converters_DOMString toy_makeException toy_Number_toString toy_Object_toString
             (VSymbol brand) no_opts;
     Return (VString (toWellFormed Str))) /\
  (forall e, toy_USVString (VSymbol brand) no_opts = Throw e ->
     (exists s, VSymbol brand = VSymbol s /\
        e = toy_makeException TypeError
              "is a symbol, which cannot be converted to a string" no_opts) \/
     (exists props, VSymbol brand = VObject props /\ toy_Object_toString props = Throw e)).
Proof.
  apply (USVString_after_DOMString toy_makeException toy_Number_toString toy_Object_toString
           (VSymbol brand) no_opts).
  - intros n. apply js_code_unit.
  - intros props Str [= <-]. apply js_code_unit.
  - exact I.
Defined.



Lemma methods_require_an_argument_witness :
  toy_test [] (World books_pattern []) =
    (Throw (Exn TypeError
       "Failed to execute 'test' on 'URLPattern': 1 argument required, but only 0 present."),
     World books_pattern []) /\
  toy_exec [] (World books_pattern []) =
    (Throw (Exn TypeError
       "Failed to execute 'exec' on 'URLPattern': 1 argument required, but only 0 present."),
     World books_pattern []).
Proof.
  apply (methods_require_an_argument toy_type toy_makeException toy_Number_toString
           toy_Object_toString toy_urlpatternProcessMatchInput books_pattern []).
  vm_refl.
Defined.



Lemma toy_resolver_keys (input baseURL : value) (values : object jsstring)
    (inputs : list value) :
  toy_urlpatternProcessMatchInput input baseURL = Return (Some (values, inputs)) ->
  values.*1 = component_keys.
Proof.
  unfold toy_urlpatternProcessMatchInput.
  destruct input as [| | | | |text| |props]; try done.
  - destruct (after_prefix (js "https://") text) as [rest|].
    + destruct (until_slash rest) as [host path]. by intros [= <- _].
    + destruct baseURL as [| | | | |base| |]; try done.
      destruct (after_prefix (js "https://") base) as [rest|]; [|done].
      by intros [= <- _].
  - destruct (is_undefined baseURL); [|done]. by intros [= <- _].
Qed.

(** [books_pattern.test({}, "x")]: the resolver rejects a structured input
    with a base URL, and [test] and [exec] throw what it threw. *)
Lemma test_exec_throw_only_witness :
  outcome (toy_test [VObject ∅; VString (js "x")]) books_pattern =
    Throw (Exn TypeError "a structured input takes no base URL") /\
  outcome (toy_exec [VObject ∅; VString (js "x")]) books_pattern =
    Throw (Exn TypeError "a structured input takes no base URL").
Proof.
  assert (H1 : components_property books_pattern =
               Some (default [] (components_property books_pattern))) by vm_refl.
  assert (H2 : forall input baseURL values inputs,
    toy_urlpatternProcessMatchInput input baseURL = Return (Some (values, inputs)) ->
    Forall (fun key => key ∈ (default [] (components_property books_pattern)).*1) values.*1).
  { intros input baseURL values inputs Hresolve.
    rewrite (toy_resolver_keys _ _ _ _ Hresolve).
    apply (bool_decide_unpack _). vm_compute. exact I. }
  pose proof (test_exec_throw_only toy_type toy_makeException toy_Number_toString
                toy_Object_toString toy_urlpatternParse toy_urlpatternProcessMatchInput
                toy_RegExp books_pattern) as H.
  specialize (H (default [] (components_property books_pattern))
                [VObject ∅; VString (js "x")]
                (Exn TypeError "a structured input takes no base URL")).
  destruct (H books_pattern_constructed H1 H2) as [Htest Hexec].
  split; [apply Htest|apply Hexec]; right;
    exists (VObject ∅), (VString (js "x")); split; vm_refl.
Defined.

(** [new URLPattern("books")]: the toy compiler wants a base URL. *)
Lemma constructor_throws_only_witness :
  (toy_convert "Failed to construct 'URLPattern'" [VString (js "books")] =
     Throw (Exn TypeError "a relative pattern needs a base URL") /\
   [call_urlpatternParse (VString (js "books")) VUndefined] = []) \/
  (exists input baseURL,
     toy_convert "Failed to construct 'URLPattern'" [VString (js "books")] =
       Return (input, baseURL) /\
     toy_urlpatternParse input baseURL =
       Throw (Exn TypeError "a relative pattern needs a base URL") /\
     [call_urlpatternParse (VString (js "books")) VUndefined] =
       [call_urlpatternParse input baseURL]) \/
  (exists input baseURL components before key component after e0,
     toy_convert "Failed to construct 'URLPattern'" [VString (js "books")] =
       Return (input, baseURL) /\
     toy_urlpatternParse input baseURL = Return components /\
     components = before ++ (key, component) :: after /\
     Forall (fun entry => returns (toy_RegExp (regexpString entry.2) "u") = true) before /\
     toy_RegExp (regexpString component) "u" = Throw e0 /\
     Exn TypeError "a relative pattern needs a base URL" =
       Exn TypeError
         ("Failed to construct 'URLPattern': " +:+ key +:+ " is invalid; " +:+ message e0) /\
     [call_urlpatternParse (VString (js "books")) VUndefined] =
       call_urlpatternParse input baseURL ::
         (compilation <$> before ++ [(key, component)])).
Proof.
  apply (constructor_throws_only toy_type toy_makeException toy_Number_toString
           toy_Object_toString toy_urlpatternParse toy_RegExp [VString (js "books")]).
  vm_refl.
Defined.

(** [any_pattern.exec("https://example.com/books")] *)
Lemma exec_result_properties_witness :
  (forall key,
     is_Some (result_of (outcome (toy_exec [VString (js "https://example.com/books")])
                           any_pattern) !! key) <->
     key = "inputs" \/ key ∈ (toy_url (js "example.com") (js "/books")).*1) /\
  (forall key, key ∈ (toy_url (js "example.com") (js "/books")).*1 ->
     exists c,
       result_of (outcome (toy_exec [VString (js "https://example.com/books")])
                    any_pattern) !! key = Some (component_property c)) /\
  ("inputs" ∉ (toy_url (js "example.com") (js "/books")).*1 ->
   result_of (outcome (toy_exec [VString (js "https://example.com/books")]) any_pattern)
     !! "inputs" = Some (inputs_property [VString (js "https://example.com/books")])).
Proof.
  apply (exec_result_properties toy_type toy_makeException toy_Number_toString
           toy_Object_toString toy_urlpatternProcessMatchInput any_pattern
           [VString (js "https://example.com/books")]
           "Failed to execute 'exec' on 'URLPattern'"
           (VString (js "https://example.com/books")) VUndefined
           (toy_url (js "example.com") (js "/books"))
           (recorded_inputs (VString (js "https://example.com/books")) VUndefined)).
  - vm_refl.
  - vm_refl.
  - vm_refl.
Defined.

(** [books_pattern[Symbol.for("Deno.customInspect")](o => o.pathname)] *)
Lemma customInspect_shows_pattern_strings_witness :
  exists shown : object jsstring,
    shown.*1 = component_keys /\
    (forall key s, (key, s) ∈ shown ->
       exists component,
         (key, component) ∈
           ((fun key => (key, if String.eqb key "pathname" then literal (js "/books")
                              else wildcard)) <$> component_keys) /\
         s = patternString component) /\
    run (customInspect (fun o => Return (default [] (object_get o "pathname")))) books_pattern =
      (text ← Return (default [] (object_get shown "pathname"));
       Return (js "URLPattern " ++ text), World books_pattern []).
Proof.
  apply (customInspect_shows_pattern_strings toy_type toy_makeException toy_Number_toString
           toy_Object_toString toy_urlpatternParse toy_RegExp
           [VObject {[ "pathname" := VString (js "/books") ]}]
           (VObject {[ "pathname" := VString (js "/books") ]}) VUndefined
           ((fun key => (key, if String.eqb key "pathname" then literal (js "/books")
                              else wildcard)) <$> component_keys)
           books_pattern
           (toy_new [VObject {[ "pathname" := VString (js "/books") ]}]).2
           (fun o => Return (default [] (object_get o "pathname")))).
  - vm_refl.
  - vm_refl.
  - unfold eight_components. vm_compute. reflexivity.
  - vm_refl.
Defined.


(** [new URLPattern({ pathname: "/books" })] *)
Lemma construction_succeeds_witness :
  exists self components',
    toy_new [VObject {[ "pathname" := VString (js "/books") ]}] =
      (Return self,
       call_urlpatternParse (VObject {[ "pathname" := VString (js "/books") ]}) VUndefined ::
         (compilation <$>
            ((fun key => (key, if String.eqb key "pathname" then literal (js "/books")
                               else wildcard)) <$> component_keys))) /\
    assertBranded self = Return () /\
    components_property self = Some components' /\
    Forall2 (compiled toy_RegExp)
      ((fun key => (key, if String.eqb key "pathname" then literal (js "/books")
                         else wildcard)) <$> component_keys) components'.
Proof.
  apply (construction_succeeds toy_type toy_makeException toy_Number_toString
           toy_Object_toString toy_urlpatternParse toy_RegExp
           [VObject {[ "pathname" := VString (js "/books") ]}]
           (VObject {[ "pathname" := VString (js "/books") ]}) VUndefined).
  - vm_refl.
  - vm_refl.
  - repeat (constructor; [reflexivity|]). constructor.
Defined.

(** [new URLPattern("https://example.com/a")] and
    [books_pattern.test("https://example.com/a")] hand the module the same
    string. *)
Lemma conversions_shared_witness :
  (head (toy_new [VString (js "https://example.com/a")]).2 =
     Some (call_urlpatternParse (VString (js "https://example.com/a")) VUndefined) <->
   head (calls (toy_test [VString (js "https://example.com/a")]) books_pattern) =
     Some (call_urlpatternProcessMatchInput (VString (js "https://example.com/a"))
             VUndefined)) /\
  (head (toy_new [VString (js "https://example.com/a")]).2 =
     Some (call_urlpatternParse (VString (js "https://example.com/a")) VUndefined) <->
   head (calls (toy_exec [VString (js "https://example.com/a")]) books_pattern) =
     Some (call_urlpatternProcessMatchInput (VString (js "https://example.com/a"))
             VUndefined)).
Proof.
  apply (conversions_shared toy_type toy_makeException toy_Number_toString
           toy_Object_toString toy_urlpatternParse toy_urlpatternProcessMatchInput
           toy_RegExp books_pattern [VString (js "https://example.com/a")]).
  vm_refl.
Defined.


(** The arguments [{ pathname: "/a" }] and a lone high surrogate, converted
    and converted again. *)
Lemma conversion_idempotent_witness :
  toy_convert "Failed to execute 'test' on 'URLPattern'"
    [VObject {[ "pathname" := VString (js "/a") ]}; VString [0xFFFD]] =
    Return (VObject {[ "pathname" := VString (js "/a") ]}, VString [0xFFFD]).
Proof.
  apply (conversion_idempotent toy_type toy_makeException toy_Number_toString
           toy_Object_toString "Failed to construct 'URLPattern'"
           "Failed to execute 'test' on 'URLPattern'"
           [VObject {[ "pathname" := VString (js "/a") ]}; VString [0xD800]]).
  - intros n. apply js_code_unit.
  - intros props Str [= <-]. apply js_code_unit.
  - reflexivity.
  - intros d. reflexivity.
  - constructor; [|constructor; [|constructor]].
    + intros k x [_ <-]%lookup_singleton_Some. apply js_code_unit.
    + constructor; [unfold code_unit; lia|constructor].
  - vm_refl.
Defined.
